(** * go-fiscobcos: header identity and channel framing

    A shallow embedding of the two small cores of the client library:

    - [rpc/channel.go]: the channel frame tags ([ChannelPack]) and the
      correlation sequences ([GenMsgSeq], [GenZeroSeq]);
    - [core/types]: the block nonce ([EncodeNonce], [Uint64]), the block
      [Header] and its identity ([Hash], [rlpHash]).

    Go packages are rendered as modules that keep the Go names
    ([hexutil.Decode], [rlp.Encode], [sha3.NewLegacyKeccak256], ...).
    A Go [byte] is a [Byte.byte]; a [uint64] is an [N] with the truncation
    written out where the code truncates; a [*big.Int] is a [Z]; a Go
    [string] is a [string]; a slice or an array of bytes is a [list byte];
    a Go [(value, error)] pair is a [Result]. *)

From Stdlib Require Import NArith ZArith List String Ascii Bool Lia.
From Stdlib Require Strings.Byte.
Import ListNotations.

Local Open Scope N_scope.
Set Warnings "-register-all".

(** ** Bytes *)

Abbreviation byte := Byte.byte.
Abbreviation bytes := (list Byte.byte).

(** The Go conversion [byte(x)] of an unsigned integer: the low eight bits. *)
Definition byte_of_N (n : N) : byte :=
  match Byte.of_N (n mod 256) with
  | Some b => b
  | None => Byte.x00
  end.

(** ** Errors and results *)

(** The error values of the packages modelled below. *)
Inductive error : Type :=
| hex_InvalidByteError (c : ascii)   (* encoding/hex *)
| hex_ErrLength                      (* encoding/hex *)
| ErrEmptyString                     (* hexutil: empty hex string *)
| ErrSyntax                          (* hexutil: invalid hex string *)
| ErrMissingPrefix                   (* hexutil: hex string without 0x prefix *)
| ErrOddLength                       (* hexutil: hex string of odd length *)
| ErrNegativeBigInt                  (* rlp: cannot encode negative *big.Int *)
| ErrUnrecognizedFrameType.          (* channel: tag outside the enumeration *)

(** A Go result pair [(v, err)]: [Ok v] stands for [(v, nil)]. *)
Inductive Result (A : Type) : Type :=
| Ok (v : A)
| Err (e : error).
Arguments Ok {A} v.
Arguments Err {A} e.

(** [if err != nil { return err }] *)
Definition bind {A B : Type} (r : Result A) (k : A -> Result B) : Result B :=
  match r with
  | Ok v => k v
  | Err e => Err e
  end.

Notation "x <- r ;; k" := (bind r (fun x => k))
  (at level 61, r at next level, right associativity).

(** ** Package strings (Go standard library)

    The library functions that [GenMsgSeq] calls, after their
    documentation. *)

Module strings.

(** [skip] characters of a separator that was just matched are still to be
    passed over; [cur] is the piece being collected. *)
Fixpoint split_from (sep s : string) (skip : nat) (cur : string) : list string :=
  match s with
  | EmptyString => [cur]
  | String c s' =>
      match skip with
      | S k => split_from sep s' k cur
      | O =>
          if String.prefix sep s
          then cur :: split_from sep s' (String.length sep - 1) EmptyString
          else split_from sep s' 0 (cur ++ String c EmptyString)
      end
  end.

(** [strings.Split(s, sep)] for a separator that is not empty: the pieces of
    [s] between the occurrences of [sep]. *)
Definition Split (s sep : string) : list string := split_from sep s 0 EmptyString.

(** [c -= 'a' - 'A'] on the letters ['a'..'z']. *)
Definition upper_char (c : ascii) : ascii :=
  let n := N_of_ascii c in
  if (97 <=? n) && (n <=? 122) then ascii_of_N (n - 32) else c.

(** [strings.ToUpper(s)] on ASCII text. (Go sends the bytes from 0x80 on
    through the Unicode tables; here they are left as they are.) *)
Fixpoint ToUpper (s : string) : string :=
  match s with
  | EmptyString => EmptyString
  | String c s' => String (upper_char c) (ToUpper s')
  end.

End strings.

(** ** Package encoding/hex (Go standard library)

    The hex decoder under [hexutil.Decode], and the hex encoder under the
    text form of a UUID. *)

Module hex.

(** The value of a hex digit, of either case. *)
Definition fromHexChar (c : ascii) : option N :=
  let n := N_of_ascii c in
  if (48 <=? n) && (n <=? 57) then Some (n - 48)             (* '0'..'9' *)
  else if (97 <=? n) && (n <=? 102) then Some (n - 97 + 10)  (* 'a'..'f' *)
  else if (65 <=? n) && (n <=? 70) then Some (n - 65 + 10)   (* 'A'..'F' *)
  else None.

(** [hex.DecodeString]: two digits a byte; the first character that is not a
    hex digit is reported, and an odd length only when every character
    before the end is a digit. *)
Fixpoint DecodeString (s : string) : Result bytes :=
  match s with
  | EmptyString => Ok []
  | String c1 EmptyString =>
      match fromHexChar c1 with
      | None => Err (hex_InvalidByteError c1)
      | Some _ => Err hex_ErrLength
      end
  | String c1 (String c2 rest) =>
      match fromHexChar c1 with
      | None => Err (hex_InvalidByteError c1)
      | Some a =>
          match fromHexChar c2 with
          | None => Err (hex_InvalidByteError c2)
          | Some b =>
              tl <- DecodeString rest ;;
              Ok (byte_of_N (N.lor (N.shiftl a 4) b) :: tl)
          end
      end
  end.

Definition hextable : string := "0123456789abcdef".

(** [hextable[n]] *)
Definition digit (n : N) : ascii :=
  match String.get (N.to_nat n) hextable with
  | Some c => c
  | None => "0"%char
  end.

(** [hex.Encode]: two lower-case digits a byte. *)
Fixpoint EncodeToString (src : bytes) : string :=
  match src with
  | [] => EmptyString
  | v :: rest =>
      String (digit (N.shiftr (Byte.to_N v) 4))
        (String (digit (N.land (Byte.to_N v) 0x0f)) (EncodeToString rest))
  end.

End hex.

(** ** Package common/hexutil

    The package is part of the repository (it comes from go-ethereum) but
    is not among the sources at hand. *)

Module hexutil.

(** Modelled from the spec: the package [common/hexutil] is not among the
    sources. The literal prefix of a hex text, [0x] or [0X]. *)
Definition has0xPrefix (input : string) : bool :=
  match input with
  | String c0 (String c1 _) =>
      Ascii.eqb c0 "0" && (Ascii.eqb c1 "x" || Ascii.eqb c1 "X")
  | _ => false
  end.

(** Modelled from the spec: the package [common/hexutil] is not among the
    sources. The errors of [encoding/hex] as [hexutil] reports them. *)
Definition mapError (e : error) : error :=
  match e with
  | hex_InvalidByteError _ => ErrSyntax
  | hex_ErrLength => ErrOddLength
  | _ => e
  end.

(** Modelled from the spec: the package [common/hexutil] is not among the
    sources. [Decode] turns a hex text with a literal [0x] prefix into the
    raw bytes it denotes, two digits a byte with nothing padded or cut; it
    is the decoder of go-ethereum, from which the package is taken. *)
Definition Decode (input : string) : Result bytes :=
  if (String.length input =? 0)%nat then Err ErrEmptyString
  else if negb (has0xPrefix input) then Err ErrMissingPrefix
  else
    match hex.DecodeString (String.substring 2 (String.length input - 2) input) with
    | Ok b => Ok b
    | Err e => Err (mapError e)
    end.

End hexutil.

(** ** Package uuid (github.com/pborman/uuid)

    An outside library: [uuid.New()] returns a new random (version 4) UUID
    as a text. The text is an input of [GenMsgSeq] below; the definitions
    here say which texts the library makes. *)

Module uuid.

(** [u[i] = f(u[i])] *)
Definition set_nth (i : nat) (f : byte -> byte) (u : bytes) : bytes :=
  firstn i u ++
  match skipn i u with
  | [] => []
  | b :: rest => f b :: rest
  end.

(** A random (version 4) UUID from the sixteen random bytes [r]:
    [uuid[6] = (uuid[6] & 0x0f) | 0x40] and
    [uuid[8] = (uuid[8] & 0x3f) | 0x80]. *)
Definition NewRandom (r : bytes) : bytes :=
  set_nth 8 (fun b => byte_of_N (N.lor (N.land (Byte.to_N b) 0x3f) 0x80))
    (set_nth 6 (fun b => byte_of_N (N.lor (N.land (Byte.to_N b) 0x0f) 0x40)) r).

Definition dash : string := "-".

(** The text form [xxxxxxxx-xxxx-xxxx-xxxx-xxxxxxxxxxxx], or the empty text
    when the UUID does not have sixteen bytes. *)
Definition String_ (u : bytes) : string :=
  if negb (List.length u =? 16)%nat then EmptyString
  else
    (hex.EncodeToString (firstn 4 u) ++ dash ++
     hex.EncodeToString (firstn 2 (skipn 4 u)) ++ dash ++
     hex.EncodeToString (firstn 2 (skipn 6 u)) ++ dash ++
     hex.EncodeToString (firstn 2 (skipn 8 u)) ++ dash ++
     hex.EncodeToString (skipn 10 u))%string.

(** [uuid.New()], as a function of the sixteen bytes drawn from the random
    source. *)
Definition New (r : bytes) : string := String_ (NewRandom r).

End uuid.

(** ** Package rpc: channel.go *)

Module rpc.

(** [type ChannelPack int] *)
Definition ChannelPack : Type := Z.

Definition TYPE_RPC : ChannelPack := 0x12%Z.
Definition TYPE_HEATBEAT : ChannelPack := 0x13%Z.
Definition TYPE_AMOP_REQ : ChannelPack := 0x30%Z.
Definition TYPE_AMOP_RESP : ChannelPack := 0x31%Z.
Definition TYPE_TOPIC_REPORT : ChannelPack := 0x32%Z.
Definition TYPE_TOPIC_MULTICAST : ChannelPack := 0x35%Z.
Definition TYPE_TX_COMMITTED : ChannelPack := 0x1000%Z.
Definition TYPE_TX_BLOCKNUM : ChannelPack := 0x1001%Z.

(** Modelled from the spec: the closed enumeration of the frame kinds that
    carry a tag. *)
Inductive FrameType : Type :=
| RpcRequest
| Heartbeat
| AmopRequest
| AmopResponse
| TopicReport
| TopicMulticast
| TxCommitted
| TxBlockNum.

(** Modelled from the spec: the members of the enumeration. *)
Definition all_frame_types : list FrameType :=
  [RpcRequest; Heartbeat; AmopRequest; AmopResponse; TopicReport;
   TopicMulticast; TxCommitted; TxBlockNum].

(** Modelled from the spec: the tag of a frame kind, the constant declared
    for it. *)
Definition encode_tag (k : FrameType) : ChannelPack :=
  match k with
  | RpcRequest => TYPE_RPC
  | Heartbeat => TYPE_HEATBEAT
  | AmopRequest => TYPE_AMOP_REQ
  | AmopResponse => TYPE_AMOP_RESP
  | TopicReport => TYPE_TOPIC_REPORT
  | TopicMulticast => TYPE_TOPIC_MULTICAST
  | TxCommitted => TYPE_TX_COMMITTED
  | TxBlockNum => TYPE_TX_BLOCKNUM
  end.

(** Modelled from the spec: the sources declare the tags only, the decoder
    of a tag is not among them. Decoding is an exhaustive match over the
    closed enumeration; a tag outside it is a decode error, never a default
    or a guess. *)
Definition decode_tag (tag : Z) : Result FrameType :=
  if (tag =? TYPE_RPC)%Z then Ok RpcRequest
  else if (tag =? TYPE_HEATBEAT)%Z then Ok Heartbeat
  else if (tag =? TYPE_AMOP_REQ)%Z then Ok AmopRequest
  else if (tag =? TYPE_AMOP_RESP)%Z then Ok AmopResponse
  else if (tag =? TYPE_TOPIC_REPORT)%Z then Ok TopicReport
  else if (tag =? TYPE_TOPIC_MULTICAST)%Z then Ok TopicMulticast
  else if (tag =? TYPE_TX_COMMITTED)%Z then Ok TxCommitted
  else if (tag =? TYPE_TX_BLOCKNUM)%Z then Ok TxBlockNum
  else Err ErrUnrecognizedFrameType.

(** [GenMsgSeq], as a function of the text [uid0] that [uuid.New()] hands
    back: the pieces between the dashes are appended to ["0X"], and the
    upper-cased text is hex-decoded. *)
Definition GenMsgSeq (uid0 : string) : Result bytes :=
  let splited := strings.Split uid0 "-" in
  let uid := fold_left (fun acc v => (acc ++ v)%string) splited "0X"%string in
  hexutil.Decode (strings.ToUpper uid).

(** [GenZeroSeq]: the constant text is hex-decoded. *)
Definition GenZeroSeq : Result bytes :=
  hexutil.Decode "0x00000000000000000000000000000000".

End rpc.

(** ** Package encoding/binary (Go standard library) *)

Module binary.

(** [binary.BigEndian.PutUint64(b, v)]: the eight bytes of [v], most
    significant first, stored in [b[0..7]]. [None] is the panic of the
    bounds check [_ = b[7]]. *)
Definition BigEndian_PutUint64 (b : bytes) (v : N) : option bytes :=
  if (List.length b <? 8)%nat then None
  else Some ([byte_of_N (N.shiftr v 56); byte_of_N (N.shiftr v 48);
              byte_of_N (N.shiftr v 40); byte_of_N (N.shiftr v 32);
              byte_of_N (N.shiftr v 24); byte_of_N (N.shiftr v 16);
              byte_of_N (N.shiftr v 8); byte_of_N v] ++ skipn 8 b).

(** [binary.BigEndian.Uint64(b)]; the shifted bytes stay below [2^64], so
    nothing is cut off. [None] is the panic of the bounds check. *)
Definition BigEndian_Uint64 (b : bytes) : option N :=
  match b with
  | b0 :: b1 :: b2 :: b3 :: b4 :: b5 :: b6 :: b7 :: _ =>
      Some (N.lor (Byte.to_N b7)
           (N.lor (N.shiftl (Byte.to_N b6) 8)
           (N.lor (N.shiftl (Byte.to_N b5) 16)
           (N.lor (N.shiftl (Byte.to_N b4) 24)
           (N.lor (N.shiftl (Byte.to_N b3) 32)
           (N.lor (N.shiftl (Byte.to_N b2) 40)
           (N.lor (N.shiftl (Byte.to_N b1) 48)
                  (N.shiftl (Byte.to_N b0) 56))))))))
  | _ => None
  end.

End binary.

(** ** io.Writer *)

(** The interface that [rlp.Encode] writes to. *)
Class Writer (W : Type) : Type := { Write : W -> bytes -> W }.

(** ** Package rlp

    The package is part of the repository (it comes from go-ethereum) but
    is not among the sources at hand: the canonical encoder is modelled
    from the spec, with the length prefixes of RLP, which the sources name
    as the encoding. *)

Module rlp.

(** Modelled from the spec: the package [rlp] is not among the sources.
    The typed fields of the canonical encoder: a byte string, an integer,
    or a nested list of fields. *)
Inductive value : Type :=
| Str (s : bytes)
| Int (i : Z)
| List (vs : list value).

(** Modelled from the spec: the package [rlp] is not among the sources.
    What reflection over a Go value hands to the encoder. *)
Class Encodable (A : Type) : Type := { to_value : A -> value }.

(** Modelled from the spec: the package [rlp] is not among the sources.
    The base 256 digits of [i], the most significant first; [fuel] bounds
    their number. *)
Fixpoint int_bytes_fuel (fuel : nat) (i : N) : bytes :=
  match fuel with
  | O => []
  | S f => if i =? 0 then [] else int_bytes_fuel f (i / 256) ++ [byte_of_N i]
  end.

(** Modelled from the spec: the package [rlp] is not among the sources.
    An integer is written in its minimal big-endian byte representation: no
    leading zero byte, and the integer zero is the empty byte string. *)
Definition int_bytes (i : N) : bytes := int_bytes_fuel (N.to_nat (N.size i)) i.

(** Modelled from the spec: the package [rlp] is not among the sources.
    The length prefix is RLP's: a size below 56 is added to the tag, a
    larger size follows the tag in [int_bytes] form and the tag counts its
    bytes. *)
Definition puthead (smalltag largetag size : N) : bytes :=
  if size <? 56 then [byte_of_N (smalltag + size)]
  else
    let sizebytes := int_bytes size in
    byte_of_N (largetag + N.of_nat (List.length sizebytes)) :: sizebytes.

(** Modelled from the spec: the package [rlp] is not among the sources.
    A byte string encodes as itself behind its length prefix; RLP lets a
    single byte below 0x80 stand for itself. *)
Definition encode_string (s : bytes) : bytes :=
  match s with
  | [b] => if Byte.to_N b <? 0x80 then [b] else puthead 0x80 0xB7 1 ++ s
  | _ => puthead 0x80 0xB7 (N.of_nat (List.length s)) ++ s
  end.

(** Modelled from the spec: the package [rlp] is not among the sources.
    A list encodes as the concatenation of its encoded elements behind a
    length prefix that covers the concatenation. *)
Definition encode_list (payload : bytes) : bytes :=
  puthead 0xC0 0xF7 (N.of_nat (List.length payload)) ++ payload.

(** Modelled from the spec: the package [rlp] is not among the sources.
    The canonical encoding of a field; a negative integer is rejected and
    nothing is encoded. *)
Fixpoint EncodeToBytes (v : value) : Result bytes :=
  match v with
  | Str s => Ok (encode_string s)
  | Int i =>
      if (i <? 0)%Z then Err ErrNegativeBigInt
      else Ok (encode_string (int_bytes (Z.to_N i)))
  | List vs =>
      payload <-
        (fix elems (l : list value) : Result bytes :=
           match l with
           | [] => Ok []
           | x :: rest =>
               e <- EncodeToBytes x ;;
               es <- elems rest ;;
               Ok (e ++ es)
           end) vs ;;
      Ok (encode_list payload)
  end.

(** Modelled from the spec: the package [rlp] is not among the sources.
    [rlp.Encode(w, val)] writes the encoding of [val] to [w]; when [val] is
    rejected nothing is written and the error is returned. *)
Definition Encode {W A : Type} `{Writer W} `{Encodable A} (w : W) (val : A)
  : W * option error :=
  match EncodeToBytes (to_value val) with
  | Ok b => (Write w b, None)
  | Err e => (w, Some e)
  end.

End rlp.

(** ** Package sha3 (golang.org/x/crypto/sha3)

    An outside library, not among the sources. Modelled from the spec: the
    content hasher is the hash of the Keccak family with the original
    padding of Keccak-256; the definitions follow the Keccak reference: the
    permutation Keccak-f[1600] on 25 lanes of 64 bits, and the sponge of
    the library around it, a [state] that is written to and summed. *)

Module sha3.

(** Modelled from the spec: the 64 bits of a lane. *)
Definition mask64 : N := 0xFFFFFFFFFFFFFFFF.

(** Modelled from the spec: a lane rotated left, [bits.RotateLeft64]. *)
Definition rotl64 (x n : N) : N :=
  N.land (N.lor (N.shiftl x n) (N.shiftr x (64 - n))) mask64.

(** Modelled from the spec: the round constants of Keccak-f[1600]. *)
Definition rc : list N :=
  [0x0000000000000001; 0x0000000000008082; 0x800000000000808A; 0x8000000080008000;
   0x000000000000808B; 0x0000000080000001; 0x8000000080008081; 0x8000000000008009;
   0x000000000000008A; 0x0000000000000088; 0x0000000080008009; 0x000000008000000A;
   0x000000008000808B; 0x800000000000008B; 0x8000000000008089; 0x8000000000008003;
   0x8000000000008002; 0x8000000000000080; 0x000000000000800A; 0x800000008000000A;
   0x8000000080008081; 0x8000000000008080; 0x0000000080000001; 0x8000000080008008].

(** Modelled from the spec: the rotation offsets of Keccak-f[1600], lane
    [(x, y)] at index [x + 5 * y]. *)
Definition rotc : list N :=
  [ 0;  1; 62; 28; 27;
   36; 44;  6; 55; 20;
    3; 10; 43; 25; 39;
   41; 45; 15; 21;  8;
   18;  2; 61; 56; 14].

(** Modelled from the spec: the state [a [25]uint64]; lane [(x, y)] is
    [a[x + 5 * y]], the coordinates taken modulo 5. *)
Definition lane (a : list N) (x y : nat) : N :=
  nth ((x mod 5) + 5 * (y mod 5)) a 0.

(** Modelled from the spec: the state whose lane [(x, y)] is [f x y]. *)
Definition lanes (f : nat -> nat -> N) : list N :=
  map (fun i => f (i mod 5) (i / 5))%nat (seq 0 25).

(** Modelled from the spec: theta, the parity of two columns is added to
    each lane. *)
Definition theta (a : list N) : list N :=
  let c x :=
    N.lxor (lane a x 0) (N.lxor (lane a x 1) (N.lxor (lane a x 2)
           (N.lxor (lane a x 3) (lane a x 4)))) in
  let d x := N.lxor (c (x + 4)%nat) (rotl64 (c (x + 1)%nat) 1) in
  lanes (fun x y => N.lxor (lane a x y) (d x)).

(** Modelled from the spec: rho and pi,
    [b[y][2x + 3y] = rot(a[x][y], r[x][y])]. *)
Definition rho_pi (a : list N) : list N :=
  lanes (fun x y =>
    let x0 := ((x + 3 * y) mod 5)%nat in
    rotl64 (lane a x0 x) (nth (x0 + 5 * x) rotc 0)).

(** Modelled from the spec: chi,
    [a[x][y] = b[x][y] xor (not b[x+1][y] and b[x+2][y])]. *)
Definition chi (b : list N) : list N :=
  lanes (fun x y =>
    N.lxor (lane b x y)
      (N.land (N.lxor (lane b (x + 1) y) mask64) (lane b (x + 2) y))).

(** Modelled from the spec: iota, the round constant is added to lane
    [(0, 0)]. *)
Definition iota (round : nat) (a : list N) : list N :=
  match a with
  | [] => []
  | a0 :: rest => N.lxor a0 (nth round rc 0) :: rest
  end.

(** Modelled from the spec: one round of Keccak-f[1600]. *)
Definition keccak_round (a : list N) (round : nat) : list N :=
  iota round (chi (rho_pi (theta a))).

(** Modelled from the spec: [keccakF1600], the twenty-four rounds. *)
Definition keccakF1600 (a : list N) : list N :=
  fold_left keccak_round (seq 0 24) a.

(** Modelled from the spec: bytes as a little-endian lane. *)
Fixpoint le_val (bs : bytes) : N :=
  match bs with
  | [] => 0
  | b :: rest => N.lor (Byte.to_N b) (N.shiftl (le_val rest) 8)
  end.

(** Modelled from the spec: a lane as its eight bytes, the least
    significant first. *)
Definition le_bytes8 (v : N) : bytes :=
  map (fun i => byte_of_N (N.shiftr v (8 * N.of_nat i))) (seq 0 8).

(** Modelled from the spec: [xorIn], the buffered bytes are xored into the
    lanes. *)
Definition xorIn (a : list N) (buf : bytes) : list N :=
  map (fun i => N.lxor (nth i a 0) (le_val (firstn 8 (skipn (8 * i) buf))))
    (seq 0 25).

(** Modelled from the spec: [copyOut], the lanes as bytes. *)
Definition copyOut (a : list N) : bytes := flat_map le_bytes8 a.

(** Modelled from the spec: the sponge [state], the lanes, the bytes not
    yet absorbed, the rate, the size of the digest and the domain separation
    byte. *)
Record state : Type := mkState {
  a : list N;
  buf : bytes;
  rate : nat;
  outputLen : nat;
  dsbyte : byte
}.

(** Modelled from the spec: the package [sha3] is not among the sources.
    [NewLegacyKeccak256] is the 32-byte hash of the Keccak family with the
    original padding of Keccak-256 (rate 136, first padding byte 0x01). *)
Definition NewLegacyKeccak256 : state :=
  mkState (repeat 0 25) [] 136 32 Byte.x01.

(** Modelled from the spec: [New256] is the later variant of NIST,
    SHA3-256: the same sponge, first padding byte 0x06. *)
Definition New256 : state :=
  mkState (repeat 0 25) [] 136 32 Byte.x06.

(** Modelled from the spec: one byte of [Write], it is buffered, and a full
    buffer is absorbed. *)
Definition write_byte (d : state) (b : byte) : state :=
  let buf' := buf d ++ [b] in
  if (List.length buf' =? rate d)%nat
  then mkState (keccakF1600 (xorIn (a d) buf')) [] (rate d) (outputLen d) (dsbyte d)
  else mkState (a d) buf' (rate d) (outputLen d) (dsbyte d).

(** Modelled from the spec: [Write], byte after byte. *)
Definition write (d : state) (p : bytes) : state := fold_left write_byte p d.

(** The hasher is an [io.Writer]. *)
#[global] Instance state_Writer : Writer state := {| Write := write |}.

(** Modelled from the spec: [buf[len(buf)-1] ^= 0x80]. *)
Definition xor_last (buf : bytes) : bytes :=
  match rev buf with
  | [] => []
  | l :: front => rev front ++ [byte_of_N (N.lxor (Byte.to_N l) 0x80)]
  end.

(** Modelled from the spec: the padded last block, the domain separation
    byte (it carries the first bit of the padding), zeros up to the rate,
    and the final bit in the top of the last byte. *)
Definition pad (d : state) : bytes :=
  let buf1 := buf d ++ [dsbyte d] in
  xor_last (buf1 ++ repeat Byte.x00 (rate d - List.length buf1)).

(** Modelled from the spec: [padAndPermute], the padded block is
    absorbed. *)
Definition padAndPermute (d : state) : list N :=
  keccakF1600 (xorIn (a d) (pad d)).

(** Modelled from the spec: [Sum(in)], the digest appended to [in]; the
    state is left as it is. *)
Definition Sum (d : state) (b : bytes) : bytes :=
  b ++ firstn (outputLen d) (copyOut (padAndPermute d)).

End sha3.

(** ** Package types *)

Module types.

(** [type BlockNonce [8]byte] *)
Definition BlockNonce : Type := bytes.

(** [EncodeNonce] converts the given integer to a block nonce; [None] would
    be the panic of [PutUint64]. *)
Definition EncodeNonce (i : N) : option BlockNonce :=
  let n : BlockNonce := repeat Byte.x00 8 in
  binary.BigEndian_PutUint64 n i.

(** [Uint64]: the integer value of a block nonce. *)
Definition Uint64 (n : BlockNonce) : option N :=
  binary.BigEndian_Uint64 n.

(** The block header. [common.Hash] is [[32]byte], [common.Address] is
    [[20]byte], [Bloom] is [[256]byte]; [Difficulty] and [Number] are the
    integers the [*big.Int] fields point to. No statement below needs the
    sizes of the arrays or the range of [uint64]: they hold for byte lists
    of any length and for any natural number. *)
Record Header : Type := mkHeader {
  ParentHash : bytes;
  UncleHash : bytes;
  Coinbase : bytes;
  Root : bytes;
  TxHash : bytes;
  ReceiptHash : bytes;
  Bloom : bytes;
  Difficulty : Z;
  Number : Z;
  GasLimit : N;
  GasUsed : N;
  Time : N;
  Extra : bytes;
  MixDigest : bytes;
  RandomId : BlockNonce
}.

(** Modelled from the spec: how [rlp] walks a struct is not among the
    sources. The fields are fed to the encoder in the order of their
    declaration: an array or a slice of bytes as a byte string, a [uint64]
    and a [*big.Int] as an integer. *)
Definition header_fields (h : Header) : list rlp.value :=
  [rlp.Str (ParentHash h); rlp.Str (UncleHash h); rlp.Str (Coinbase h);
   rlp.Str (Root h); rlp.Str (TxHash h); rlp.Str (ReceiptHash h);
   rlp.Str (Bloom h); rlp.Int (Difficulty h); rlp.Int (Number h);
   rlp.Int (Z.of_N (GasLimit h)); rlp.Int (Z.of_N (GasUsed h));
   rlp.Int (Z.of_N (Time h)); rlp.Str (Extra h); rlp.Str (MixDigest h);
   rlp.Str (RandomId h)].

(** A header is the list of its fields. *)
#[global] Instance Header_Encodable : rlp.Encodable Header :=
  {| rlp.to_value := fun h => rlp.List (header_fields h) |}.

(** A slice of headers, [[]*Header], is the list of its elements. *)
#[global] Instance Headers_Encodable : rlp.Encodable (list Header) :=
  {| rlp.to_value := fun hs => rlp.List (map rlp.to_value hs) |}.

(** [rlpHash]: the error of [rlp.Encode] is dropped, and the digest of what
    was written fills [h]. *)
Definition rlpHash {A : Type} `{rlp.Encodable A} (x : A) : bytes :=
  let hw := sha3.NewLegacyKeccak256 in
  let '(hw, _) := rlp.Encode hw x in
  sha3.Sum hw [].

(** [Hash]: the block hash of the header, the keccak256 hash of its RLP
    encoding. *)
Definition Hash (h : Header) : bytes := rlpHash h.

(** [EmptyUncleHash = rlpHash([]*Header(nil))] *)
Definition EmptyUncleHash : bytes := rlpHash (@nil Header).

End types.

(** ** Go's conversions

    Two conversions of the language that the client applies to an
    unsigned 64-bit integer. *)

Module runtime.

Definition runeError : N := 0xFFFD.
Definition maxRune : N := 0x10FFFF.
Definition surrogateMin : N := 0xD800.
Definition surrogateMax : N := 0xDFFF.
Definition rune1Max : N := 0x7F.
Definition rune2Max : N := 0x7FF.
Definition rune3Max : N := 0xFFFF.
Definition t2 : N := 0xC0.
Definition t3 : N := 0xE0.
Definition t4 : N := 0xF0.
Definition tx : N := 0x80.
Definition maskx : N := 0x3F.

(** A byte of a Go string, as a character: [byte(x)], the low eight bits. *)
Definition chr (x : N) : ascii := ascii_of_N (x mod 256).

(** [encoderune]: the UTF-8 bytes of the rune [r]; a surrogate half and a
    value above [maxRune] are written as [runeError], in three bytes. *)
Definition encoderune (r : N) : string :=
  if r <=? rune1Max then String (chr r) EmptyString
  else if r <=? rune2Max then
    String (chr (N.lor t2 (N.shiftr r 6 mod 256)))
      (String (chr (N.lor tx (N.land (r mod 256) maskx))) EmptyString)
  else
    let r :=
      if (maxRune <? r) || ((surrogateMin <=? r) && (r <=? surrogateMax))
      then runeError else r in
    if r <=? rune3Max then
      String (chr (N.lor t3 (N.shiftr r 12 mod 256)))
        (String (chr (N.lor tx (N.land (N.shiftr r 6 mod 256) maskx)))
           (String (chr (N.lor tx (N.land (r mod 256) maskx))) EmptyString))
    else
      String (chr (N.lor t4 (N.shiftr r 18 mod 256)))
        (String (chr (N.lor tx (N.land (N.shiftr r 12 mod 256) maskx)))
           (String (chr (N.lor tx (N.land (N.shiftr r 6 mod 256) maskx)))
              (String (chr (N.lor tx (N.land (r mod 256) maskx))) EmptyString))).

(** [string(v)] for a [uint64]: [intstring]. A value that is not a rune
    ([int64(rune(v)) != v]) is replaced by [runeError]; the values from
    [2^64 - 2^31] on, which pass that test as negative runes, are above
    [maxRune] for [encoderune] and end as [runeError] too. *)
Definition intstring (v : N) : string :=
  encoderune (if v <? 2 ^ 31 then v else runeError).

(** [int64(v)] for a [uint64]: the same 64 bits, read in two's
    complement. *)
Definition int64 (v : N) : Z :=
  let m := v mod 2 ^ 64 in
  if m <? 2 ^ 63 then Z.of_N m else (Z.of_N m - 2 ^ 64)%Z.

End runtime.

(** ** Package fiscobcos (the root package)

    The package is not among the sources; the client takes one error
    value from it. *)

Module fiscobcos.

(** The [error] values that the client hands on or makes: [NotFound] of
    this package, an error made of a text, and the errors of the packages
    above. *)
Inductive Error : Type :=
| NotFound
| errors_New (text : string)
| of_error (e : error).

End fiscobcos.

(** ** Package ethclient *)

Module ethclient.
Import fiscobcos.

(** An argument of a call, an [interface{}]. *)
Inductive iface : Type :=
| of_uint64 (n : N)
| of_int (z : Z)
| of_string (s : string)
| of_bool (b : bool).

(** [rpc.Client], the connection to the node, is not among the sources.
    [CallContext(ctx, &result, method, args...)] performs a call: from what
    [result] holds before, it gives what [result] holds after, and the
    error. There is one field for each type of [result] that the getters
    below pass: [*string], [*[]string], [*[]int64] and [*[]interface{}].
    What the node answers is left open. *)
Record rpc_Client : Type := mk_rpc_Client {
  CallContext_string : string -> string -> list iface -> string * option Error;
  CallContext_strings :
    list string -> string -> list iface -> list string * option Error;
  CallContext_int64s : list Z -> string -> list iface -> list Z * option Error;
  CallContext_ifaces :
    list iface -> string -> list iface -> list iface * option Error
}.

(** [type Client struct { c *rpc.Client }] *)
Record Client : Type := mkClient { c : rpc_Client }.

(** The functions of [common] and [common/hexutil] that the getters call.
    The packages are not among the sources, and the functions are taken as
    they come: a decoder of a hex text into a [uint64] and an error, and a
    total conversion of a hex text into the 32 bytes of a [common.Hash]. *)
Class Imports : Type := {
  hexutil_DecodeUint64 : string -> N * option Error;
  common_HexToHash : string -> bytes
}.

Section Getters.
Context `{Imports}.

(** [getBlockNumber]: the answer is a hex text; the number is
    [big.NewInt(int64(height))], returned together with the error of the
    decoder. *)
Definition getBlockNumber (ec : Client) (method : string) (args : list iface)
  : option Z * option Error :=
  let raw : string := EmptyString in
  let '(raw, err) := CallContext_string (c ec) raw method args in
  match err with
  | Some _ => (None, err)
  | None =>
      if (String.length raw =? 0)%nat then (None, Some NotFound)
      else
        let '(height, err) := hexutil_DecodeUint64 raw in
        (Some (runtime.int64 height), err)
  end.

(** [getBlockHashByNumber]: the answer is turned into a hash, and no error
    is returned with it. *)
Definition getBlockHashByNumber (ec : Client) (method : string) (args : list iface)
  : option bytes * option Error :=
  let raw : string := EmptyString in
  let '(raw, err) := CallContext_string (c ec) raw method args in
  match err with
  | Some _ => (None, err)
  | None =>
      if (String.length raw =? 0)%nat then (None, Some NotFound)
      else
        let blockHash := common_HexToHash raw in
        (Some blockHash, None)
  end.

End Getters.

(** The body that [getPbftView], [getPendingTxSize], [getCode] and
    [getSystemConfigByKey] have in common: the answer is a text, returned
    as it is. *)
Definition get_string (ec : Client) (method : string) (args : list iface)
  : string * option Error :=
  let raw : string := EmptyString in
  let '(raw, err) := CallContext_string (c ec) raw method args in
  match err with
  | Some _ => (EmptyString, err)
  | None =>
      if (String.length raw =? 0)%nat then (EmptyString, Some NotFound)
      else (raw, err)
  end.

Definition getPbftView := get_string.
Definition getPendingTxSize := get_string.
Definition getCode := get_string.
Definition getSystemConfigByKey := get_string.

(** The body that [getSealerList], [getObserverList], [getConsensusStatus],
    [getGroupPeers], [getNodeIDList] and [getGroupList] have in common,
    with [call] for [ec.c.CallContext] at the type of [raw]: the answer is
    a slice of [T], returned as it is; [nil] is the empty list. *)
Definition get_slice {T : Type}
  (call : list T -> string -> list iface -> list T * option Error)
  (method : string) (args : list iface) : list T * option Error :=
  let raw : list T := [] in
  let '(raw, err) := call raw method args in
  match err with
  | Some _ => ([], err)
  | None =>
      if (List.length raw =? 0)%nat then ([], Some NotFound)
      else (raw, err)
  end.

Definition getSealerList (ec : Client) := get_slice (CallContext_strings (c ec)).
Definition getObserverList (ec : Client) := get_slice (CallContext_strings (c ec)).
Definition getConsensusStatus (ec : Client) := get_slice (CallContext_ifaces (c ec)).
Definition getGroupPeers (ec : Client) := get_slice (CallContext_strings (c ec)).
Definition getNodeIDList (ec : Client) := get_slice (CallContext_strings (c ec)).
Definition getGroupList (ec : Client) := get_slice (CallContext_int64s (c ec)).

(** The calls of the client. *)
Definition BlockNumber `{Imports} (ec : Client) (groupId : N) :=
  getBlockNumber ec "getBlockNumber" [of_uint64 groupId].

Definition PbftView (ec : Client) (groupId : N) :=
  getPbftView ec "getPbftView" [of_uint64 groupId].

(** The block number goes into the call as [string(blockNumber)]. *)
Definition BlockHashByNumber `{Imports} (ec : Client) (groupId blockNumber : N) :=
  getBlockHashByNumber ec "getBlockHashByNumber"
    [of_uint64 groupId; of_string (runtime.intstring blockNumber)].

Definition PendingTxSize (ec : Client) (groupId : N) :=
  getPendingTxSize ec "getPendingTxSize" [of_uint64 groupId].

Definition Code (ec : Client) (groupId : N) (contraddress : string) :=
  getCode ec "getCode" [of_uint64 groupId; of_string contraddress].

Definition SystemConfigByKey (ec : Client) (groupId : N) (key : string) :=
  getSystemConfigByKey ec "getSystemConfigByKey" [of_uint64 groupId; of_string key].

Definition SealerList (ec : Client) (groupId : N) :=
  getSealerList ec "getSealerList" [of_uint64 groupId].

Definition ObserverList (ec : Client) (groupId : N) :=
  getObserverList ec "getObserverList" [of_uint64 groupId].

Definition ConsensusStatus (ec : Client) (groupId : N) :=
  getConsensusStatus ec "getConsensusStatus" [of_uint64 groupId].

Definition GroupPeers (ec : Client) (groupId : N) :=
  getGroupPeers ec "getGroupPeers" [of_uint64 groupId].

Definition NodeIDList (ec : Client) (groupId : N) :=
  getNodeIDList ec "getNodeIDList" [of_uint64 groupId].

Definition GroupList (ec : Client) :=
  getGroupList ec "getGroupList" [].

(** [fiscobcos.CallEthMsg] is declared outside the sources: the fields are
    those that [toCallArg] reads. [From] and [To] are only passed on, their
    types [F] and [T] are left open; a [*big.Int] that is [nil] is
    [None]. *)
Record CallEthMsg (F T : Type) : Type := mkCallEthMsg {
  From : F;
  To : T;
  Data : bytes;
  Value : option Z;
  Gas : N;
  GasPrice : option Z
}.
Arguments From {F T} _.
Arguments To {F T} _.
Arguments Data {F T} _.
Arguments Value {F T} _.
Arguments Gas {F T} _.
Arguments GasPrice {F T} _.

(** The values that [toCallArg] stores. *)
Inductive callvalue (F T : Type) : Type :=
| value_From (a : F)
| value_To (a : T)
| hexutil_Bytes (b : bytes)
| hexutil_Big (z : Z)
| hexutil_Uint64 (n : N).
Arguments value_From {F T} a.
Arguments value_To {F T} a.
Arguments hexutil_Bytes {F T} b.
Arguments hexutil_Big {F T} z.
Arguments hexutil_Uint64 {F T} n.

(** A Go [map[string]interface{}], as the list of its keys with their
    values: [m[k] = v] replaces the value of a key that is there and adds
    the key otherwise. *)
Fixpoint mapassign {V : Type} (k : string) (v : V) (m : list (string * V))
  : list (string * V) :=
  match m with
  | [] => [(k, v)]
  | (k', v') :: rest =>
      if String.eqb k' k then (k, v) :: rest else (k', v') :: mapassign k v rest
  end.

(** [m[k]] *)
Fixpoint mapaccess {V : Type} (k : string) (m : list (string * V)) : option V :=
  match m with
  | [] => None
  | (k', v') :: rest => if String.eqb k' k then Some v' else mapaccess k rest
  end.

(** [toCallArg]: the object of a call. *)
Definition toCallArg {F T : Type} (msg : CallEthMsg F T)
  : list (string * callvalue F T) :=
  let arg :=
    mapassign "to" (value_To (To msg))
      (mapassign "from" (value_From (From msg)) []) in
  let arg :=
    if (0 <? List.length (Data msg))%nat
    then mapassign "data" (hexutil_Bytes (Data msg)) arg else arg in
  let arg :=
    match Value msg with
    | Some v => mapassign "value" (hexutil_Big v) arg
    | None => arg
    end in
  let arg :=
    if negb (Gas msg =? 0)
    then mapassign "gas" (hexutil_Uint64 (Gas msg)) arg else arg in
  let arg :=
    match GasPrice msg with
    | Some v => mapassign "gasPrice" (hexutil_Big v) arg
    | None => arg
    end in
  arg.

End ethclient.

(** ** Vocabulary of the statements *)

(** A hex text as the bytes it denotes (for writing digests down). *)
Definition hexs (s : string) : bytes :=
  match hex.DecodeString s with
  | Ok b => b
  | Err _ => []
  end.

(** The reserved sequence: sixteen bytes of value 0. *)
Definition zero_seq : bytes := repeat Byte.x00 16.

(** A text without its dashes. *)
Fixpoint remove_dashes (s : string) : string :=
  match s with
  | EmptyString => EmptyString
  | String c s' =>
      if Ascii.eqb c "-" then remove_dashes s' else String c (remove_dashes s')
  end.

(** A hex digit, of either case. *)
Definition is_hex (c : ascii) : bool :=
  match hex.fromHexChar c with
  | Some _ => true
  | None => false
  end.

(** A text of hex digits only. *)
Fixpoint all_hex (s : string) : bool :=
  match s with
  | EmptyString => true
  | String c s' => is_hex c && all_hex s'
  end.

(** A text against a pattern: [true] asks for a hex digit, [false] for a
    dash. *)
Fixpoint match_pattern (pat : list bool) (s : string) : bool :=
  match pat, s with
  | [], EmptyString => true
  | true :: pat', String c s' => is_hex c && match_pattern pat' s'
  | false :: pat', String c s' => Ascii.eqb c "-" && match_pattern pat' s'
  | _, _ => false
  end.

(** Eight digits, and four, four, four and twelve behind a dash each. *)
Definition uuid_pattern : list bool :=
  repeat true 8 ++ [false] ++ repeat true 4 ++ [false] ++ repeat true 4 ++
  [false] ++ repeat true 4 ++ [false] ++ repeat true 12.

(** The text form of a UUID: [xxxxxxxx-xxxx-xxxx-xxxx-xxxxxxxxxxxx] in hex
    digits. *)
Definition is_uuid_text (s : string) : bool := match_pattern uuid_pattern s.

(** The text form of a version 4 UUID: the digit after the second dash is
    the version, 4. *)
Definition is_uuid_v4_text (s : string) : bool :=
  is_uuid_text s &&
  match String.get 14 s with
  | Some c => Ascii.eqb c "4"
  | None => false
  end.

(** A text of zero digits only. *)
Fixpoint all_zero_digits (s : string) : bool :=
  match s with
  | EmptyString => true
  | String c s' => Ascii.eqb c "0" && all_zero_digits s'
  end.

(** The integer that bytes denote, most significant byte first. *)
Definition be_val (bs : bytes) : N :=
  fold_left (fun acc b => acc * 256 + Byte.to_N b) bs 0.

(** Bytes without their leading zero bytes. *)
Fixpoint strip_zeros (bs : bytes) : bytes :=
  match bs with
  | [] => []
  | b :: rest => if Byte.eqb b Byte.x00 then strip_zeros rest else bs
  end.

(** No leading zero byte. *)
Definition no_leading_zero (bs : bytes) : Prop :=
  match bs with
  | [] => True
  | b :: _ => b <> Byte.x00
  end.

(** A byte string that is one byte below 0x80: it stands for itself. *)
Definition single_low (s : bytes) : bool :=
  match s with
  | [b] => Byte.to_N b <? 0x80
  | _ => false
  end.

(** The payload of a header: its fields, encoded, in the order of their
    declaration. *)
Definition header_payload (h : types.Header) : bytes :=
  rlp.encode_string (types.ParentHash h) ++
  rlp.encode_string (types.UncleHash h) ++
  rlp.encode_string (types.Coinbase h) ++
  rlp.encode_string (types.Root h) ++
  rlp.encode_string (types.TxHash h) ++
  rlp.encode_string (types.ReceiptHash h) ++
  rlp.encode_string (types.Bloom h) ++
  rlp.encode_string (rlp.int_bytes (Z.to_N (types.Difficulty h))) ++
  rlp.encode_string (rlp.int_bytes (Z.to_N (types.Number h))) ++
  rlp.encode_string (rlp.int_bytes (types.GasLimit h)) ++
  rlp.encode_string (rlp.int_bytes (types.GasUsed h)) ++
  rlp.encode_string (rlp.int_bytes (types.Time h)) ++
  rlp.encode_string (types.Extra h) ++
  rlp.encode_string (types.MixDigest h) ++
  rlp.encode_string (types.RandomId h).

(** The fields of a header that hold bytes, and those that hold an
    integer. *)
Inductive bytes_field : Type :=
| FParentHash | FUncleHash | FCoinbase | FRoot | FTxHash | FReceiptHash
| FBloom | FExtra | FMixDigest | FRandomId.

Inductive int_field : Type :=
| FDifficulty | FNumber | FGasLimit | FGasUsed | FTime.

(** The value of a field, and the header with a new value in a field. *)
Definition get_bytes (f : bytes_field) (h : types.Header) : bytes :=
  match f with
  | FParentHash => types.ParentHash h
  | FUncleHash => types.UncleHash h
  | FCoinbase => types.Coinbase h
  | FRoot => types.Root h
  | FTxHash => types.TxHash h
  | FReceiptHash => types.ReceiptHash h
  | FBloom => types.Bloom h
  | FExtra => types.Extra h
  | FMixDigest => types.MixDigest h
  | FRandomId => types.RandomId h
  end.

Definition set_bytes (f : bytes_field) (v : bytes) (h : types.Header) : types.Header :=
  let '(types.mkHeader ph uh cb rt tx rh bl df nb gl gu tm ex md ri) := h in
  match f with
  | FParentHash => types.mkHeader v uh cb rt tx rh bl df nb gl gu tm ex md ri
  | FUncleHash => types.mkHeader ph v cb rt tx rh bl df nb gl gu tm ex md ri
  | FCoinbase => types.mkHeader ph uh v rt tx rh bl df nb gl gu tm ex md ri
  | FRoot => types.mkHeader ph uh cb v tx rh bl df nb gl gu tm ex md ri
  | FTxHash => types.mkHeader ph uh cb rt v rh bl df nb gl gu tm ex md ri
  | FReceiptHash => types.mkHeader ph uh cb rt tx v bl df nb gl gu tm ex md ri
  | FBloom => types.mkHeader ph uh cb rt tx rh v df nb gl gu tm ex md ri
  | FExtra => types.mkHeader ph uh cb rt tx rh bl df nb gl gu tm v md ri
  | FMixDigest => types.mkHeader ph uh cb rt tx rh bl df nb gl gu tm ex v ri
  | FRandomId => types.mkHeader ph uh cb rt tx rh bl df nb gl gu tm ex md v
  end.

Definition get_int (f : int_field) (h : types.Header) : Z :=
  match f with
  | FDifficulty => types.Difficulty h
  | FNumber => types.Number h
  | FGasLimit => Z.of_N (types.GasLimit h)
  | FGasUsed => Z.of_N (types.GasUsed h)
  | FTime => Z.of_N (types.Time h)
  end.

Definition set_int (f : int_field) (v : Z) (h : types.Header) : types.Header :=
  let '(types.mkHeader ph uh cb rt tx rh bl df nb gl gu tm ex md ri) := h in
  match f with
  | FDifficulty => types.mkHeader ph uh cb rt tx rh bl v nb gl gu tm ex md ri
  | FNumber => types.mkHeader ph uh cb rt tx rh bl df v gl gu tm ex md ri
  | FGasLimit => types.mkHeader ph uh cb rt tx rh bl df nb (Z.to_N v) gu tm ex md ri
  | FGasUsed => types.mkHeader ph uh cb rt tx rh bl df nb gl (Z.to_N v) tm ex md ri
  | FTime => types.mkHeader ph uh cb rt tx rh bl df nb gl gu (Z.to_N v) ex md ri
  end.

(** The header with the values of two of its fields changed over. *)
Definition swap_bytes (f g : bytes_field) (h : types.Header) : types.Header :=
  set_bytes f (get_bytes g h) (set_bytes g (get_bytes f h) h).

(** The same for two fields that hold integers; the integers are not
    negative in the headers the statements are about. *)
Definition swap_int (f g : int_field) (h : types.Header) : types.Header :=
  set_int f (get_int g h) (set_int g (get_int f h) h).

(** The fifteen fields of two headers are pairwise equal. *)
Definition fieldwise_equal (h1 h2 : types.Header) : Prop :=
  types.ParentHash h1 = types.ParentHash h2 /\
  types.UncleHash h1 = types.UncleHash h2 /\
  types.Coinbase h1 = types.Coinbase h2 /\
  types.Root h1 = types.Root h2 /\
  types.TxHash h1 = types.TxHash h2 /\
  types.ReceiptHash h1 = types.ReceiptHash h2 /\
  types.Bloom h1 = types.Bloom h2 /\
  types.Difficulty h1 = types.Difficulty h2 /\
  types.Number h1 = types.Number h2 /\
  types.GasLimit h1 = types.GasLimit h2 /\
  types.GasUsed h1 = types.GasUsed h2 /\
  types.Time h1 = types.Time h2 /\
  types.Extra h1 = types.Extra h2 /\
  types.MixDigest h1 = types.MixDigest h2 /\
  types.RandomId h1 = types.RandomId h2.

(** The bytes fit a Go slice. *)
Definition fits_slice (b : bytes) : Prop := N.of_nat (List.length b) < 2 ^ 63.

(** The header of the regression scenario: every field zero or empty. *)
Definition zero_header : types.Header :=
  types.mkHeader (repeat Byte.x00 32) (repeat Byte.x00 32) (repeat Byte.x00 20)
    (repeat Byte.x00 32) (repeat Byte.x00 32) (repeat Byte.x00 32)
    (repeat Byte.x00 256) 0%Z 0%Z 0 0 0 [] (repeat Byte.x00 32)
    (repeat Byte.x00 8).

(** A header with distinct values in its fields, for running the
    statements. *)
Definition sample_header : types.Header :=
  types.mkHeader (repeat Byte.x01 32) (repeat Byte.x02 32) (repeat Byte.x03 20)
    (repeat Byte.x04 32) (repeat Byte.x05 32) (repeat Byte.x06 32)
    (repeat Byte.x00 256) 2%Z 5%Z 0x1000 0x800 0x5f5e100 [Byte.xca; Byte.xfe]
    (repeat Byte.x07 32) [Byte.x00; Byte.x00; Byte.x00; Byte.x00;
                          Byte.x00; Byte.x00; Byte.x00; Byte.x2a].

(** The padding of the original Keccak for a last block of [len] bytes:
    the byte of the domain, zeros up to the rate, and the top bit of the
    last byte (0x01 0x00 ... 0x80, or 0x81 when one byte is left). *)
Definition keccak_pad (ds : byte) (rate len : nat) : bytes :=
  sha3.xor_last (ds :: repeat Byte.x00 (rate - len - 1)).

(** A block is absorbed: xored into the lanes, which are then permuted. *)
Definition absorb_block (a : list N) (blk : bytes) : list N :=
  sha3.keccakF1600 (sha3.xorIn a blk).

(** The sponge over a whole message: full blocks of [rate] bytes are
    absorbed one after the other, the rest is padded and absorbed. *)
Fixpoint sponge_absorb (fuel rate : nat) (ds : byte) (a : list N) (m : bytes)
  : list N :=
  match fuel with
  | O => a
  | S f =>
      if (List.length m <? rate)%nat
      then absorb_block a (m ++ keccak_pad ds rate (List.length m))
      else sponge_absorb f rate ds (absorb_block a (firstn rate m)) (skipn rate m)
  end.

(** Keccak-256 as the spec has it: the sponge of rate 136 with the original
    padding, squeezed to 32 bytes. *)
Definition Keccak256 (m : bytes) : bytes :=
  firstn 32 (sha3.copyOut
    (sponge_absorb (S (List.length m)) 136 Byte.x01 (repeat 0 25) m)).

(** NIST's SHA3-256: the same sponge with the domain byte 0x06. *)
Definition SHA3_256 (m : bytes) : bytes :=
  firstn 32 (sha3.copyOut
    (sponge_absorb (S (List.length m)) 136 Byte.x06 (repeat 0 25) m)).

(** [bytes.Compare(a, b) < 0]: the order of byte strings, byte by byte
    from the front. *)
Fixpoint bytes_ltb (a b : bytes) : bool :=
  match a, b with
  | [], [] => false
  | [], _ :: _ => true
  | _ :: _, [] => false
  | x :: a', y :: b' =>
      if Byte.to_N x <? Byte.to_N y then true
      else if Byte.to_N y <? Byte.to_N x then false
      else bytes_ltb a' b'
  end.

(** A header of the data model: its two big integers are not negative. *)
Definition legal_header (h : types.Header) : Prop :=
  (0 <= types.Difficulty h)%Z /\ (0 <= types.Number h)%Z.

(** The encoding of a header of the data model: the list of its fields. *)
Definition header_encoding (h : types.Header) : bytes :=
  rlp.encode_list (header_payload h).

(** The result [r] of a getter against the outcome [call] of the call it
    made: with a nil error, [r] is the answer of the node, and the answer
    is not empty; with an error, [r] holds nothing, and the error is that
    of the call, or [NotFound] for an empty answer to a call that went
    well. *)
Definition answer_or_error {T : Type} (empty : T -> bool)
  (call r : T * option fiscobcos.Error) : Prop :=
  match snd r with
  | None => r = call /\ empty (fst r) = false
  | Some e =>
      empty (fst r) = true /\
      (snd call = Some e \/
       (snd call = None /\ empty (fst call) = true /\ e = fiscobcos.NotFound))
  end.

Definition empty_string (s : string) : bool := (String.length s =? 0)%nat.
Definition empty_slice {T : Type} (l : list T) : bool := (List.length l =? 0)%nat.

(** A hex text after its two characters of prefix, as a number and as
    bytes: a library for running the statements. *)
Definition sample_imports : ethclient.Imports := {|
  ethclient.hexutil_DecodeUint64 := fun s =>
    match hex.DecodeString (String.substring 2 (String.length s - 2) s) with
    | Ok b => (be_val b, None)
    | Err e => (0, Some (fiscobcos.of_error (hexutil.mapError e)))
    end;
  ethclient.common_HexToHash := fun s =>
    hexs (String.substring 2 (String.length s - 2) s)
|}.

(** A node for running the statements: it answers a call for a text with
    the first argument when that is a text and with [height] otherwise,
    and a call for a slice with its arguments. *)
Definition sample_client (height : string) : ethclient.Client :=
  ethclient.mkClient
    (ethclient.mk_rpc_Client
       (fun _ _ args =>
          match args with
          | ethclient.of_string s :: _ => (s, None)
          | _ => (height, None)
          end)
       (fun _ method _ => ([method], None))
       (fun _ _ _ => ([1%Z], None))
       (fun _ _ args => (args, None))).

(** * Properties *)

(** ** Bytes *)

Lemma to_N_lt (b : byte) : Byte.to_N b < 256.
Proof. pose proof (Byte.to_N_bounded b). lia. Qed.

Lemma to_N_byte_of_N (n : N) : Byte.to_N (byte_of_N n) = n mod 256.
Proof.
  unfold byte_of_N.
  destruct (Byte.of_N (n mod 256)) as [b|] eqn:E.
  - now apply Byte.to_of_N.
  - apply Byte.of_N_None_iff in E.
    pose proof (N.mod_lt n 256). lia.
Qed.

Lemma byte_of_N_to_N (b : byte) : byte_of_N (Byte.to_N b) = b.
Proof.
  unfold byte_of_N.
  rewrite N.mod_small by apply to_N_lt.
  now rewrite Byte.of_to_N.
Qed.

Lemma to_N_inj (b c : byte) : Byte.to_N b = Byte.to_N c -> b = c.
Proof.
  intros E. rewrite <- (byte_of_N_to_N b), <- (byte_of_N_to_N c). now rewrite E.
Qed.

Lemma byte_of_N_small_inj (m n : N) :
  m < 256 -> n < 256 -> byte_of_N m = byte_of_N n -> m = n.
Proof.
  intros Hm Hn E. apply (f_equal Byte.to_N) in E.
  rewrite !to_N_byte_of_N, !N.mod_small in E; assumption.
Qed.

(** ** Channel frame tags *)

Section FrameTags.
Import rpc.

(** C5. The eight frame tags have the values 0x12, 0x13, 0x30, 0x31, 0x32,
    0x35, 0x1000 and 0x1001, and no two of them are the same. *)
Theorem channel_tags_values_distinct :
  TYPE_RPC = 0x12%Z /\ TYPE_HEATBEAT = 0x13%Z /\ TYPE_AMOP_REQ = 0x30%Z /\
  TYPE_AMOP_RESP = 0x31%Z /\ TYPE_TOPIC_REPORT = 0x32%Z /\
  TYPE_TOPIC_MULTICAST = 0x35%Z /\ TYPE_TX_COMMITTED = 0x1000%Z /\
  TYPE_TX_BLOCKNUM = 0x1001%Z /\
  NoDup [TYPE_RPC; TYPE_HEATBEAT; TYPE_AMOP_REQ; TYPE_AMOP_RESP;
         TYPE_TOPIC_REPORT; TYPE_TOPIC_MULTICAST; TYPE_TX_COMMITTED;
         TYPE_TX_BLOCKNUM].
Proof.
  repeat split.
  repeat (constructor; [simpl; intuition discriminate|]). constructor.
Qed.

Lemma encode_tag_inj (k1 k2 : FrameType) : encode_tag k1 = encode_tag k2 -> k1 = k2.
Proof. destruct k1, k2; simpl; intros E; (reflexivity || discriminate E). Qed.

Lemma decode_encode_tag (k : FrameType) : decode_tag (encode_tag k) = Ok k.
Proof. destruct k; reflexivity. Qed.

Lemma decode_tag_Ok (tag : Z) (k : FrameType) :
  decode_tag tag = Ok k -> encode_tag k = tag.
Proof.
  unfold decode_tag.
  repeat match goal with
         | |- context [(tag =? ?c)%Z] => destruct (Z.eqb_spec tag c) as [->|]
         end; intros E; inversion E; reflexivity.
Qed.

Lemma decode_tag_Err (tag : Z) :
  ~ In tag (map encode_tag all_frame_types) ->
  decode_tag tag = Err ErrUnrecognizedFrameType.
Proof.
  intros Hn. destruct (decode_tag tag) as [k|e] eqn:E.
  - apply decode_tag_Ok in E. exfalso. apply Hn. subst tag.
    apply in_map. destruct k; simpl; tauto.
  - revert E. unfold decode_tag.
    repeat match goal with
           | |- context [(tag =? ?c)%Z] => destruct (tag =? c)%Z
           end; intros E; inversion E; reflexivity.
Qed.

(** C9. Decoding a tag is total and exhaustive over the closed enumeration:
    0x13 is the heartbeat, 0x1001 the transaction-block-number notification,
    0x99 fails; each of the eight tags decodes to its kind, every tag
    outside the eight fails with the decode error, and a tag is never taken
    for a kind whose tag it is not. *)
Theorem frame_type_decoding_exhaustive :
  decode_tag 0x13 = Ok Heartbeat /\
  decode_tag 0x1001 = Ok TxBlockNum /\
  decode_tag 0x99 = Err ErrUnrecognizedFrameType /\
  (forall tag : Z,
      ~ In tag [0x12; 0x13; 0x30; 0x31; 0x32; 0x35; 0x1000; 0x1001]%Z ->
      decode_tag tag = Err ErrUnrecognizedFrameType) /\
  (forall tag : Z,
      In tag [0x12; 0x13; 0x30; 0x31; 0x32; 0x35; 0x1000; 0x1001]%Z ->
      exists k, decode_tag tag = Ok k) /\
  (forall (tag : Z) (k : FrameType), decode_tag tag = Ok k -> encode_tag k = tag) /\
  (forall k : FrameType, decode_tag (encode_tag k) = Ok k) /\
  (forall k1 k2 : FrameType, encode_tag k1 = encode_tag k2 -> k1 = k2).
Proof.
  split; [reflexivity|]. split; [reflexivity|]. split; [reflexivity|].
  split; [exact decode_tag_Err|].
  split; [|split; [exact decode_tag_Ok|split; [exact decode_encode_tag|exact encode_tag_inj]]].
  intros tag Hin. simpl in Hin.
  repeat (destruct Hin as [<-|Hin]; [eexists; reflexivity|]).
  contradiction.
Qed.

End FrameTags.

(** ** Bit arithmetic *)

Lemma land_mul_pow2_small (a b s : N) : b < 2 ^ s -> N.land (a * 2 ^ s) b = 0.
Proof.
  intros Hb. apply N.bits_inj. intros n. rewrite N.land_spec, N.bits_0.
  destruct (N.lt_ge_cases n s) as [Hlt|Hge].
  - now rewrite N.mul_pow2_bits_low.
  - rewrite <- (N.mod_small b (2 ^ s)) by assumption.
    rewrite N.mod_pow2_bits_high by assumption. apply andb_false_r.
Qed.

(** A value shifted above the bits of another: [or] is addition. *)
Lemma lor_shiftl_add (a b s : N) :
  b < 2 ^ s -> N.lor (N.shiftl a s) b = a * 2 ^ s + b.
Proof.
  intros Hb. rewrite N.shiftl_mul_pow2.
  rewrite <- N.lxor_lor by now apply land_mul_pow2_small.
  symmetry. apply N.add_nocarry_lxor. now apply land_mul_pow2_small.
Qed.

Lemma lor_add_shiftl (a b s : N) :
  b < 2 ^ s -> N.lor b (N.shiftl a s) = b + a * 2 ^ s.
Proof. intros Hb. rewrite N.lor_comm, lor_shiftl_add by assumption. lia. Qed.

(** ** Hex text *)

Lemma string_ind2 (P : string -> Prop) :
  P EmptyString ->
  (forall c, P (String c EmptyString)) ->
  (forall c1 c2 s, P s -> P (String c1 (String c2 s))) ->
  forall s, P s.
Proof.
  intros H0 H1 H2.
  assert (H : forall s, P s /\ forall c, P (String c s)).
  { induction s as [|c s [IH1 IH2]]; split; auto. }
  intros s. apply H.
Qed.

Lemma ascii_cases (P : ascii -> Prop) :
  (forall b0 b1 b2 b3 b4 b5 b6 b7 : bool, P (Ascii b0 b1 b2 b3 b4 b5 b6 b7)) ->
  forall c, P c.
Proof. intros H []; apply H. Qed.

Ltac each_ascii c :=
  pattern c; apply ascii_cases;
  intros [] [] [] [] [] [] [] []; vm_compute.

Lemma fromHexChar_upper (c : ascii) :
  hex.fromHexChar (strings.upper_char c) = hex.fromHexChar c.
Proof. each_ascii c; reflexivity. Qed.

Lemma fromHexChar_lt (c : ascii) (a : N) : hex.fromHexChar c = Some a -> a < 16.
Proof. revert a. each_ascii c; intros a E; inversion E; reflexivity. Qed.

Lemma fromHexChar_0 (c : ascii) : hex.fromHexChar c = Some 0 -> c = "0"%char.
Proof. each_ascii c; intros E; (reflexivity || discriminate E). Qed.

Lemma is_hex_not_dash (c : ascii) : is_hex c = true -> Ascii.eqb c "-" = false.
Proof. each_ascii c; intros E; (reflexivity || discriminate E). Qed.

(** The two digits of a byte, decoded, give the byte back. *)
Lemma decode_digits (b : byte) :
  exists hi lo,
    hex.fromHexChar (hex.digit (N.shiftr (Byte.to_N b) 4)) = Some hi /\
    hex.fromHexChar (hex.digit (N.land (Byte.to_N b) 0x0f)) = Some lo /\
    byte_of_N (N.lor (N.shiftl hi 4) lo) = b.
Proof.
  destruct b;
    (eexists; eexists; split; [vm_compute; reflexivity|];
     split; [vm_compute; reflexivity|]; vm_compute; reflexivity).
Qed.

(** A result with the errors of [hex] seen through [hexutil]. *)
Lemma DecodeString_ToUpper (t : string) :
  match hex.DecodeString (strings.ToUpper t) with
  | Ok b => Ok b
  | Err e => Err (hexutil.mapError e)
  end =
  match hex.DecodeString t with
  | Ok b => Ok b
  | Err e => Err (hexutil.mapError e)
  end.
Proof.
  induction t as [|c|c1 c2 t IH] using string_ind2.
  - reflexivity.
  - cbn [strings.ToUpper hex.DecodeString]. rewrite fromHexChar_upper.
    destruct (hex.fromHexChar c); reflexivity.
  - cbn [strings.ToUpper hex.DecodeString]. rewrite !fromHexChar_upper.
    destruct (hex.fromHexChar c1); [|reflexivity].
    destruct (hex.fromHexChar c2); [|reflexivity].
    destruct (hex.DecodeString (strings.ToUpper t)) as [b1|e1];
      destruct (hex.DecodeString t) as [b2|e2];
      cbn [bind] in *; congruence.
Qed.

Lemma DecodeString_length (t : string) (b : bytes) :
  hex.DecodeString t = Ok b -> String.length t = (2 * List.length b)%nat.
Proof.
  revert b. induction t as [|c|c1 c2 t IH] using string_ind2; intros b.
  - cbn. intros E. inversion E. reflexivity.
  - cbn. destruct (hex.fromHexChar c); discriminate.
  - cbn [hex.DecodeString].
    destruct (hex.fromHexChar c1); [|discriminate].
    destruct (hex.fromHexChar c2); [|discriminate].
    destruct (hex.DecodeString t) as [b'|e]; cbn [bind]; [|discriminate].
    intros E. inversion E. cbn [String.length List.length].
    rewrite (IH b' eq_refl). lia.
Qed.

Lemma DecodeString_Ok_iff (t : string) :
  (exists b, hex.DecodeString t = Ok b) <->
  all_hex t = true /\ Nat.even (String.length t) = true.
Proof.
  induction t as [|c|c1 c2 t IH] using string_ind2.
  - cbn. split; [auto|]. intros _. now exists [].
  - cbn. unfold is_hex. destruct (hex.fromHexChar c); split;
      intros H; try (destruct H as [b H]; discriminate H);
      destruct H as [H1 H2]; discriminate.
  - cbn [hex.DecodeString all_hex String.length Nat.even]. unfold is_hex.
    destruct (hex.fromHexChar c1).
    2:{ split; [intros [b H]; discriminate H|intros [H _]; discriminate H]. }
    destruct (hex.fromHexChar c2).
    2:{ split; [intros [b H]; discriminate H|intros [H _]; discriminate H]. }
    cbn [andb]. rewrite <- IH.
    destruct (hex.DecodeString t) as [b'|e]; cbn [bind]; split.
    + intros _. now exists b'.
    + intros _. eexists. reflexivity.
    + intros [b H]. discriminate H.
    + intros [b H]. discriminate H.
Qed.

(** Encoding bytes as hex text and decoding the text gives the bytes. *)
Lemma DecodeString_EncodeToString (b : bytes) :
  hex.DecodeString (hex.EncodeToString b) = Ok b.
Proof.
  induction b as [|x b IH]; [reflexivity|].
  cbn [hex.EncodeToString hex.DecodeString].
  destruct (decode_digits x) as (hi & lo & -> & -> & ->).
  rewrite IH. reflexivity.
Qed.

Lemma EncodeToString_app (a b : bytes) :
  hex.EncodeToString (a ++ b) = (hex.EncodeToString a ++ hex.EncodeToString b)%string.
Proof. induction a as [|x a IH]; cbn; [reflexivity|now rewrite IH]. Qed.

Lemma all_hex_EncodeToString (b : bytes) : all_hex (hex.EncodeToString b) = true.
Proof.
  pose proof (DecodeString_EncodeToString b) as E.
  apply (proj1 (DecodeString_Ok_iff _)). eauto.
Qed.

Lemma remove_dashes_app (a b : string) :
  remove_dashes (a ++ b) = (remove_dashes a ++ remove_dashes b)%string.
Proof.
  induction a as [|x a IH]; cbn; [reflexivity|].
  destruct (Ascii.eqb x "-"); cbn; now rewrite IH.
Qed.

Lemma remove_dashes_all_hex (a : string) : all_hex a = true -> remove_dashes a = a.
Proof.
  induction a as [|x a IH]; cbn; [reflexivity|].
  intros H. apply andb_prop in H. destruct H as [Hx Ha].
  rewrite (is_hex_not_dash x Hx). now rewrite IH.
Qed.

(** ** Correlation sequences *)

Section Sequences.
Import rpc.

Lemma append_assoc (a b c : string) : ((a ++ b) ++ c = a ++ (b ++ c))%string.
Proof. induction a as [|x a IH]; simpl; [reflexivity|now rewrite IH]. Qed.

Lemma append_nil_r (a : string) : (a ++ "" = a)%string.
Proof. induction a as [|x a IH]; simpl; [reflexivity|now rewrite IH]. Qed.

(** The loop of [GenMsgSeq] over the pieces of [Split] puts the text back
    together without its dashes. *)
Lemma fold_split_dash (s cur acc : string) :
  fold_left (fun a v => (a ++ v)%string) (strings.split_from "-" s 0 cur) acc =
  (acc ++ cur ++ remove_dashes s)%string.
Proof.
  revert cur acc. induction s as [|c s IH]; intros cur acc.
  - simpl. now rewrite append_nil_r.
  - cbn [strings.split_from remove_dashes String.prefix String.length Nat.sub].
    destruct (Ascii.ascii_dec "-" c) as [<-|Hne].
    + replace (Ascii.eqb "-" "-") with true by reflexivity.
      replace (String.prefix "" s) with true by (destruct s; reflexivity).
      cbn [fold_left]. rewrite IH. simpl. now rewrite <- append_assoc.
    + destruct (Ascii.eqb c "-") eqn:E.
      { apply Ascii.eqb_eq in E. congruence. }
      rewrite IH. now rewrite append_assoc.
Qed.

Lemma substring_all (t : string) : String.substring 0 (String.length t) t = t.
Proof. induction t as [|c t IH]; simpl; [reflexivity|now rewrite IH]. Qed.

(** What [GenMsgSeq] comes to: the hex decoding of the upper-cased text
    without dashes, with the errors of [hex] mapped by [hexutil]. *)
Lemma GenMsgSeq_unfold (uid : string) :
  GenMsgSeq uid =
  match hex.DecodeString (strings.ToUpper (remove_dashes uid)) with
  | Ok b => Ok b
  | Err e => Err (hexutil.mapError e)
  end.
Proof.
  unfold GenMsgSeq, strings.Split. rewrite fold_split_dash.
  cbn [String.append strings.ToUpper].
  change (strings.upper_char "0") with "0"%char.
  change (strings.upper_char "X") with "X"%char.
  unfold hexutil.Decode.
  cbn [String.length Nat.eqb hexutil.has0xPrefix Nat.sub String.substring].
  change (Ascii.eqb "0" "0" && (Ascii.eqb "X" "x" || Ascii.eqb "X" "X")) with true.
  cbn [negb]. rewrite Nat.sub_0_r, substring_all. reflexivity.
Qed.

Lemma GenMsgSeq_decode (uid : string) :
  GenMsgSeq uid =
  match hex.DecodeString (remove_dashes uid) with
  | Ok b => Ok b
  | Err e => Err (hexutil.mapError e)
  end.
Proof. rewrite GenMsgSeq_unfold. apply DecodeString_ToUpper. Qed.

Lemma match_pattern_hex (pat : list bool) (s : string) :
  match_pattern pat s = true ->
  all_hex (remove_dashes s) = true /\
  String.length (remove_dashes s) = count_occ bool_dec pat true.
Proof.
  revert s. induction pat as [|[|] pat IH]; intros [|c s]; cbn [match_pattern];
    try discriminate.
  - intros _. split; reflexivity.
  - intros H. apply andb_prop in H. destruct H as [Hc Hs].
    cbn [remove_dashes]. rewrite (is_hex_not_dash c Hc).
    destruct (IH s Hs) as [IH1 IH2].
    cbn [all_hex String.length]. rewrite Hc, IH1.
    split; [reflexivity|]. cbn. now rewrite IH2.
  - intros H. apply andb_prop in H. destruct H as [Hc Hs].
    cbn [remove_dashes]. rewrite Hc.
    destruct (IH s Hs) as [IH1 IH2]. split; [assumption|]. cbn. exact IH2.
Qed.

Lemma uuid_text_digits (uid : string) :
  is_uuid_text uid = true ->
  all_hex (remove_dashes uid) = true /\ String.length (remove_dashes uid) = 32%nat.
Proof. intros H. apply match_pattern_hex in H. exact H. Qed.

(** A UUID text goes through [GenMsgSeq] to the sixteen bytes its digits
    denote. *)
Lemma GenMsgSeq_uuid_text (uid : string) :
  is_uuid_text uid = true ->
  exists b,
    GenMsgSeq uid = Ok b /\ List.length b = 16%nat /\
    hex.DecodeString (remove_dashes uid) = Ok b.
Proof.
  intros H. destruct (uuid_text_digits uid H) as [Hhex Hlen].
  destruct (proj2 (DecodeString_Ok_iff (remove_dashes uid))) as [b Hb].
  { split; [assumption|]. now rewrite Hlen. }
  exists b. rewrite GenMsgSeq_decode, Hb. split; [reflexivity|].
  split; [|reflexivity].
  apply DecodeString_length in Hb. lia.
Qed.

Lemma firstn_skipn_16 (u : bytes) :
  List.length u = 16%nat ->
  u = firstn 4 u ++ firstn 2 (skipn 4 u) ++ firstn 2 (skipn 6 u) ++
      firstn 2 (skipn 8 u) ++ skipn 10 u.
Proof.
  intros H. do 17 (destruct u as [|? u]; try discriminate H). reflexivity.
Qed.

Lemma remove_dashes_String_ (u : bytes) :
  List.length u = 16%nat ->
  remove_dashes (uuid.String_ u) = hex.EncodeToString u.
Proof.
  intros H. unfold uuid.String_. rewrite H. cbn [Nat.eqb negb].
  rewrite (firstn_skipn_16 u H) at 6.
  rewrite !remove_dashes_app, !EncodeToString_app.
  change (remove_dashes uuid.dash) with EmptyString. cbn [String.append].
  rewrite !remove_dashes_all_hex by apply all_hex_EncodeToString.
  reflexivity.
Qed.

(** The text form of sixteen bytes comes back from [GenMsgSeq] as those
    bytes: the dashes and the hex text are gone. *)
Lemma GenMsgSeq_String_ (u : bytes) :
  List.length u = 16%nat -> GenMsgSeq (uuid.String_ u) = Ok u.
Proof.
  intros H. rewrite GenMsgSeq_decode, remove_dashes_String_ by assumption.
  now rewrite DecodeString_EncodeToString.
Qed.

(** C8. [GenZeroSeq] gives sixteen bytes of value 0 and a nil error; it
    takes nothing in, so the calls of any run of calls all give this one
    value. *)
Theorem GenZeroSeq_zero :
  GenZeroSeq = Ok zero_seq /\
  List.length zero_seq = 16%nat /\
  Forall (fun b => b = Byte.x00) zero_seq /\
  (forall calls : nat,
      Forall (fun r => r = Ok (repeat Byte.x00 16)) (repeat GenZeroSeq calls)).
Proof.
  assert (E : GenZeroSeq = Ok zero_seq) by (vm_compute; reflexivity).
  split; [exact E|]. split; [reflexivity|].
  split; [repeat constructor|].
  intros calls. apply Forall_forall. intros r Hr.
  apply repeat_spec in Hr. subst r. exact E.
Qed.




Lemma digits_zero (c1 c2 : ascii) (a b : N) :
  hex.fromHexChar c1 = Some a -> hex.fromHexChar c2 = Some b ->
  byte_of_N (N.lor (N.shiftl a 4) b) = Byte.x00 ->
  c1 = "0"%char /\ c2 = "0"%char.
Proof.
  intros Ha Hb E.
  pose proof (fromHexChar_lt _ _ Ha) as La.
  pose proof (fromHexChar_lt _ _ Hb) as Lb.
  rewrite lor_shiftl_add in E by (change (2 ^ 4) with 16; lia).
  change (2 ^ 4) with 16 in E.
  change Byte.x00 with (byte_of_N 0) in E.
  apply byte_of_N_small_inj in E; [|lia|lia].
  assert (a = 0) by lia. assert (b = 0) by lia. subst a b.
  split; now apply fromHexChar_0.
Qed.

(** Hex text that decodes to zero bytes is made of zero digits. *)
Lemma DecodeString_zero (t : string) (b : bytes) :
  hex.DecodeString t = Ok b -> Forall (fun x => x = Byte.x00) b ->
  all_zero_digits t = true.
Proof.
  revert b. induction t as [|c|c1 c2 t IH] using string_ind2; intros b.
  - reflexivity.
  - cbn. destruct (hex.fromHexChar c); discriminate.
  - cbn [hex.DecodeString].
    destruct (hex.fromHexChar c1) as [a1|] eqn:E1; [|discriminate].
    destruct (hex.fromHexChar c2) as [a2|] eqn:E2; [|discriminate].
    destruct (hex.DecodeString t) as [b'|e]; cbn [bind]; [|discriminate].
    intros E Hz. inversion E; subst b. inversion Hz as [|x l Hx Hl]; subst.
    destruct (digits_zero c1 c2 a1 a2 E1 E2 Hx) as [-> ->].
    cbn. exact (IH b' eq_refl Hl).
Qed.

Lemma all_zero_digits_get (s : string) (n : nat) (c : ascii) :
  all_zero_digits (remove_dashes s) = true ->
  String.get n s = Some c -> c = "0"%char \/ c = "-"%char.
Proof.
  revert n. induction s as [|x s IH]; intros n; [discriminate|].
  cbn [remove_dashes]. destruct (Ascii.eqb x "-") eqn:Ex.
  - intros Hz. destruct n as [|n]; cbn.
    + intros E. inversion E; subst. right. now apply Ascii.eqb_eq.
    + now apply IH.
  - cbn [all_zero_digits]. intros Hz. apply andb_prop in Hz. destruct Hz as [H0 Hz].
    destruct n as [|n]; cbn.
    + intros E. inversion E; subst. left. now apply Ascii.eqb_eq.
    + now apply IH.
Qed.

Lemma all_zero_digits_32 (s : string) :
  all_zero_digits s = true -> String.length s = 32%nat ->
  s = "00000000000000000000000000000000"%string.
Proof.
  intros Hz Hl.
  do 33 (destruct s as [|? s]; try discriminate Hl;
         try (cbn [all_zero_digits] in Hz; apply andb_prop in Hz;
              destruct Hz as [Hc Hz]; apply Ascii.eqb_eq in Hc; subst)).
  reflexivity.
Qed.

(** [GenMsgSeq] has no fallback of its own: sixteen zero bytes come out
    only of a text whose thirty-two digits are all zero. *)
Lemma GenMsgSeq_zero_only_from_zero (t : string) :
  GenMsgSeq t = Ok zero_seq ->
  remove_dashes t = "00000000000000000000000000000000"%string.
Proof.
  rewrite GenMsgSeq_decode.
  destruct (hex.DecodeString (remove_dashes t)) as [b|e] eqn:E; [|discriminate].
  intros Hb. inversion Hb; subst b.
  apply all_zero_digits_32.
  - apply (DecodeString_zero _ _ E). repeat constructor.
  - apply DecodeString_length in E. exact E.
Qed.

(** The errors of [GenMsgSeq] are those of the hex decoding, and no other. *)
Lemma GenMsgSeq_Err_iff (t : string) :
  (exists e, GenMsgSeq t = Err e) <->
  ~ (all_hex (remove_dashes t) = true /\
     Nat.even (String.length (remove_dashes t)) = true).
Proof.
  rewrite <- DecodeString_Ok_iff, GenMsgSeq_decode.
  destruct (hex.DecodeString (remove_dashes t)) as [b|e]; split.
  - intros [e H]. discriminate H.
  - intros H. exfalso. apply H. now exists b.
  - intros _ [b H]. discriminate H.
  - intros _. eexists. reflexivity.
Qed.

Lemma DecodeString_errors (t : string) (e : error) :
  hex.DecodeString t = Err e ->
  hexutil.mapError e = ErrSyntax \/ hexutil.mapError e = ErrOddLength.
Proof.
  revert e. induction t as [|c|c1 c2 t IH] using string_ind2; intros e.
  - discriminate.
  - cbn. destruct (hex.fromHexChar c); intros E; inversion E; cbn; auto.
  - cbn [hex.DecodeString].
    destruct (hex.fromHexChar c1); [|intros E; inversion E; cbn; auto].
    destruct (hex.fromHexChar c2); [|intros E; inversion E; cbn; auto].
    destruct (hex.DecodeString t) as [b'|e']; cbn [bind]; [discriminate|].
    intros E. inversion E; subst. now apply IH.
Qed.

Lemma GenMsgSeq_errors (t : string) (e : error) :
  GenMsgSeq t = Err e -> e = ErrSyntax \/ e = ErrOddLength.
Proof.
  rewrite GenMsgSeq_decode.
  destruct (hex.DecodeString (remove_dashes t)) as [b|e'] eqn:E; [discriminate|].
  intros H. inversion H; subst. now apply DecodeString_errors with (t := remove_dashes t).
Qed.

(** A version 4 UUID text never gives the zero sequence. *)
Lemma GenMsgSeq_v4_text (uid : string) :
  is_uuid_v4_text uid = true ->
  exists b, GenMsgSeq uid = Ok b /\ List.length b = 16%nat /\ b <> zero_seq.
Proof.
  intros H. unfold is_uuid_v4_text in H. apply andb_prop in H.
  destruct H as [Htext Hv].
  destruct (GenMsgSeq_uuid_text uid Htext) as (b & Hb & Hlen & Hdec).
  exists b. split; [assumption|]. split; [assumption|].
  intros ->.
  destruct (String.get 14 uid) as [c|] eqn:Hc; [|discriminate].
  apply Ascii.eqb_eq in Hv. subst c.
  assert (Hz : all_zero_digits (remove_dashes uid) = true).
  { apply (DecodeString_zero _ _ Hdec). repeat constructor. }
  destruct (all_zero_digits_get uid 14 "4" Hz Hc) as [E|E]; discriminate E.
Qed.

(** What [uuid.New] makes of sixteen random bytes is a version 4 UUID
    text. *)
Lemma New_is_uuid_v4_text (r : bytes) :
  List.length r = 16%nat -> is_uuid_v4_text (uuid.New r) = true.
Proof.
  intros H. do 17 (destruct r as [|? r]; try discriminate H).
  unfold is_uuid_v4_text, is_uuid_text, uuid.New, uuid.NewRandom, uuid.set_nth.
  cbn [firstn skipn List.app]. unfold uuid.String_, uuid.dash.
  cbn [List.length Nat.eqb negb firstn skipn hex.EncodeToString String.append
       String.get uuid_pattern repeat List.app match_pattern].
  assert (Hd : forall x : byte,
             is_hex (hex.digit (N.shiftr (Byte.to_N x) 4)) = true /\
             is_hex (hex.digit (N.land (Byte.to_N x) 15)) = true).
  { intros x. destruct x; split; reflexivity. }
  assert (H4 : forall x : byte,
             hex.digit (N.shiftr (Byte.to_N
               (byte_of_N (N.lor (N.land (Byte.to_N x) 15) 64))) 4) = "4"%char).
  { intros x. destruct x; reflexivity. }
  rewrite H4.
  repeat match goal with
         | |- context [is_hex (hex.digit (N.shiftr (Byte.to_N ?x) 4))] =>
             rewrite (proj1 (Hd x))
         | |- context [is_hex (hex.digit (N.land (Byte.to_N ?x) 15))] =>
             rewrite (proj2 (Hd x))
         end.
  reflexivity.
Qed.

(** Whatever sixteen bytes the random source gives, [GenMsgSeq] returns the
    sixteen bytes of the UUID made of them, and they are not the zero
    sequence. *)
Lemma GenMsgSeq_New (r : bytes) :
  List.length r = 16%nat ->
  GenMsgSeq (uuid.New r) = Ok (uuid.NewRandom r) /\ uuid.NewRandom r <> zero_seq.
Proof.
  intros H.
  assert (Hl : List.length (uuid.NewRandom r) = 16%nat).
  { do 17 (destruct r as [|? r]; try discriminate H). reflexivity. }
  pose proof (GenMsgSeq_String_ _ Hl) as E. split; [exact E|].
  destruct (GenMsgSeq_v4_text _ (New_is_uuid_v4_text r H)) as (b & Hb & _ & Hnz).
  unfold uuid.New in Hb. rewrite E in Hb. inversion Hb; subst. exact Hnz.
Qed.

(** C7, as the code has it. For a version 4 UUID text [GenMsgSeq] returns
    without error sixteen bytes that are not all zero, and such is the text
    that [uuid.New] makes of any sixteen random bytes. [GenMsgSeq] never
    puts the zero sequence in the place of anything: sixteen zero bytes come
    only of thirty-two zero digits. It has no error of its own for a failing
    source: it fails exactly when the text without dashes is not hex text of
    even length, and then with the error of the hex decoder. *)
Theorem GenMsgSeq_never_zero (uid : string) :
  is_uuid_v4_text uid = true ->
  (exists b, GenMsgSeq uid = Ok b /\ List.length b = 16%nat /\ b <> zero_seq) /\
  (forall r : bytes,
      List.length r = 16%nat ->
      is_uuid_v4_text (uuid.New r) = true /\
      GenMsgSeq (uuid.New r) = Ok (uuid.NewRandom r) /\
      uuid.NewRandom r <> zero_seq) /\
  (forall t, GenMsgSeq t = Ok zero_seq ->
             remove_dashes t = "00000000000000000000000000000000"%string) /\
  (forall t, (exists e, GenMsgSeq t = Err e) <->
             ~ (all_hex (remove_dashes t) = true /\
                Nat.even (String.length (remove_dashes t)) = true)) /\
  (forall t e, GenMsgSeq t = Err e -> e = ErrSyntax \/ e = ErrOddLength).
Proof.
  intros H.
  split; [now apply GenMsgSeq_v4_text|].
  split.
  { intros r Hr. split; [now apply New_is_uuid_v4_text|now apply GenMsgSeq_New]. }
  split; [exact GenMsgSeq_zero_only_from_zero|].
  split; [exact GenMsgSeq_Err_iff|exact GenMsgSeq_errors].
Qed.

Lemma GenMsgSeq_never_zero_witness :
  (exists b, GenMsgSeq "123e4567-e89b-42d3-a456-4266141740ff" = Ok b /\
             List.length b = 16%nat /\ b <> zero_seq) /\
  (forall r : bytes,
      List.length r = 16%nat ->
      is_uuid_v4_text (uuid.New r) = true /\
      GenMsgSeq (uuid.New r) = Ok (uuid.NewRandom r) /\
      uuid.NewRandom r <> zero_seq) /\
  (forall t, GenMsgSeq t = Ok zero_seq ->
             remove_dashes t = "00000000000000000000000000000000"%string) /\
  (forall t, (exists e, GenMsgSeq t = Err e) <->
             ~ (all_hex (remove_dashes t) = true /\
                Nat.even (String.length (remove_dashes t)) = true)) /\
  (forall t e, GenMsgSeq t = Err e -> e = ErrSyntax \/ e = ErrOddLength).
Proof.
  apply (GenMsgSeq_never_zero "123e4567-e89b-42d3-a456-4266141740ff").
  reflexivity.
Defined.

(** The empty text, which is what the package [uuid] gives for a UUID that
    is not valid, is not a UUID text: [GenMsgSeq] returns no error for it,
    and no sixteen bytes either. A source that fails is not always reported
    as an error. *)
Lemma GenMsgSeq_empty_text_no_error :
  is_uuid_text "" = false /\ GenMsgSeq "" = Ok [] /\
  ~ (forall t, is_uuid_text t = false -> exists e, GenMsgSeq t = Err e).
Proof.
  split; [reflexivity|]. split; [reflexivity|].
  intros H. destruct (H ""%string eq_refl) as [e E]. discriminate E.
Qed.

(** The text of the nil UUID is not turned away either: the zero sequence
    is kept out by the source, which sets the version digit. *)
Example GenMsgSeq_nil_uuid_text :
  GenMsgSeq "00000000-0000-0000-0000-000000000000" = Ok zero_seq.
Proof. reflexivity. Qed.

End Sequences.

(** ** The block nonce *)

Section Nonce.
Import types.

Lemma byte_of_N_eq (x : N) (b : byte) : x mod 256 = Byte.to_N b -> byte_of_N x = b.
Proof.
  intros E. apply to_N_inj. now rewrite to_N_byte_of_N.
Qed.

(** [x] as [256 * (x / 256) + x mod 256], the two parts made variables. *)
Ltac euclid256 x :=
  let Hd := fresh "Hd" in
  let Hm := fresh "Hm" in
  pose proof (N.div_mod' x 256) as Hd;
  assert (Hm : x mod 256 < 256) by (apply N.mod_lt; discriminate);
  revert Hd Hm;
  generalize (x / 256); generalize (x mod 256).

Lemma shiftr_succ8 (i k : N) : N.shiftr i (k + 8) = N.shiftr i k / 256.
Proof. rewrite <- N.shiftr_shiftr, (N.shiftr_div_pow2 _ 8). reflexivity. Qed.

(** The value of eight bytes read most significant first. *)
Lemma BigEndian_Uint64_value (b0 b1 b2 b3 b4 b5 b6 b7 : byte) (rest : bytes) :
  binary.BigEndian_Uint64 (b0 :: b1 :: b2 :: b3 :: b4 :: b5 :: b6 :: b7 :: rest) =
  Some (Byte.to_N b7 + 256 * (Byte.to_N b6 + 256 * (Byte.to_N b5 + 256 *
       (Byte.to_N b4 + 256 * (Byte.to_N b3 + 256 * (Byte.to_N b2 + 256 *
       (Byte.to_N b1 + 256 * Byte.to_N b0))))))).
Proof.
  unfold binary.BigEndian_Uint64. f_equal.
  pose proof (to_N_lt b1). pose proof (to_N_lt b2). pose proof (to_N_lt b3).
  pose proof (to_N_lt b4). pose proof (to_N_lt b5). pose proof (to_N_lt b6).
  pose proof (to_N_lt b7).
  transitivity
    (N.lor (Byte.to_N b7) (N.shiftl
    (N.lor (Byte.to_N b6) (N.shiftl
    (N.lor (Byte.to_N b5) (N.shiftl
    (N.lor (Byte.to_N b4) (N.shiftl
    (N.lor (Byte.to_N b3) (N.shiftl
    (N.lor (Byte.to_N b2) (N.shiftl
    (N.lor (Byte.to_N b1) (N.shiftl (Byte.to_N b0) 8)) 8)) 8)) 8)) 8)) 8)) 8)).
  - rewrite !N.shiftl_lor, !N.shiftl_shiftl. reflexivity.
  - rewrite !lor_add_shiftl by (change (2 ^ 8) with 256; assumption).
    change (2 ^ 8) with 256. lia.
Qed.

Lemma Uint64_EncodeNonce (i : N) :
  i < 2 ^ 64 ->
  exists n, EncodeNonce i = Some n /\ List.length n = 8%nat /\ Uint64 n = Some i.
Proof.
  intros Hi. unfold EncodeNonce, binary.BigEndian_PutUint64.
  cbn [repeat List.length Nat.ltb Nat.leb skipn List.app].
  eexists. split; [reflexivity|]. split; [reflexivity|].
  unfold Uint64. rewrite BigEndian_Uint64_value. f_equal.
  rewrite !to_N_byte_of_N.
  change (N.shiftr i 56) with (N.shiftr i (48 + 8)). rewrite (shiftr_succ8 i 48).
  change (N.shiftr i 48) with (N.shiftr i (40 + 8)). rewrite (shiftr_succ8 i 40).
  change (N.shiftr i 40) with (N.shiftr i (32 + 8)). rewrite (shiftr_succ8 i 32).
  change (N.shiftr i 32) with (N.shiftr i (24 + 8)). rewrite (shiftr_succ8 i 24).
  change (N.shiftr i 24) with (N.shiftr i (16 + 8)). rewrite (shiftr_succ8 i 16).
  change (N.shiftr i 16) with (N.shiftr i (8 + 8)). rewrite (shiftr_succ8 i 8).
  change (N.shiftr i 8) with (N.shiftr i (0 + 8)). rewrite (shiftr_succ8 i 0).
  rewrite N.shiftr_0_r.
  change (2 ^ 64) with 18446744073709551616 in Hi.
  euclid256 i. intros r0 q1 ? ?. subst i.
  euclid256 q1. intros r1 q2 ? ?. subst q1.
  euclid256 q2. intros r2 q3 ? ?. subst q2.
  euclid256 q3. intros r3 q4 ? ?. subst q3.
  euclid256 q4. intros r4 q5 ? ?. subst q4.
  euclid256 q5. intros r5 q6 ? ?. subst q5.
  euclid256 q6. intros r6 q7 ? ?. subst q6.
  rewrite (N.mod_small q7 256) by lia. lia.
Qed.

Lemma div256 (r q : N) : r < 256 -> (r + 256 * q) / 256 = q.
Proof.
  intros Hr. rewrite N.add_comm, N.mul_comm, N.div_add_l by discriminate.
  rewrite N.div_small by assumption. lia.
Qed.

Lemma mod256 (r q : N) : r < 256 -> (r + 256 * q) mod 256 = r.
Proof.
  intros Hr. rewrite N.mul_comm, N.Div0.mod_add.
  now apply N.mod_small.
Qed.

Lemma EncodeNonce_Uint64 (n : BlockNonce) :
  List.length n = 8%nat ->
  exists i, Uint64 n = Some i /\ i < 2 ^ 64 /\ EncodeNonce i = Some n.
Proof.
  intros Hn. do 9 (destruct n as [|? n]; try discriminate Hn).
  unfold Uint64. rewrite BigEndian_Uint64_value.
  eexists. split; [reflexivity|].
  pose proof (to_N_lt b). pose proof (to_N_lt b0). pose proof (to_N_lt b1).
  pose proof (to_N_lt b2). pose proof (to_N_lt b3). pose proof (to_N_lt b4).
  pose proof (to_N_lt b5). pose proof (to_N_lt b6).
  change (2 ^ 64) with 18446744073709551616.
  split; [lia|].
  unfold EncodeNonce, binary.BigEndian_PutUint64.
  cbn [repeat List.length Nat.ltb Nat.leb skipn List.app].
  match goal with
  | |- context [N.shiftr ?v 56] => set (i := v)
  end.
  change (N.shiftr i 56) with (N.shiftr i (48 + 8)). rewrite (shiftr_succ8 i 48).
  change (N.shiftr i 48) with (N.shiftr i (40 + 8)). rewrite (shiftr_succ8 i 40).
  change (N.shiftr i 40) with (N.shiftr i (32 + 8)). rewrite (shiftr_succ8 i 32).
  change (N.shiftr i 32) with (N.shiftr i (24 + 8)). rewrite (shiftr_succ8 i 24).
  change (N.shiftr i 24) with (N.shiftr i (16 + 8)). rewrite (shiftr_succ8 i 16).
  change (N.shiftr i 16) with (N.shiftr i (8 + 8)). rewrite (shiftr_succ8 i 8).
  change (N.shiftr i 8) with (N.shiftr i (0 + 8)). rewrite (shiftr_succ8 i 0).
  rewrite N.shiftr_0_r. subst i.
  rewrite !div256 by assumption.
  repeat match goal with
         | |- context [byte_of_N (Byte.to_N ?x + 256 * ?q)] =>
             rewrite (byte_of_N_eq (Byte.to_N x + 256 * q) x)
               by (apply mod256; assumption)
         end.
  rewrite byte_of_N_to_N. reflexivity.
Qed.

(** The integer of a nonce is the one its bytes denote, the most
    significant first. *)
Lemma Uint64_be_val (n : BlockNonce) :
  List.length n = 8%nat -> Uint64 n = Some (be_val n).
Proof.
  intros Hn. do 9 (destruct n as [|? n]; try discriminate Hn).
  unfold Uint64. rewrite BigEndian_Uint64_value. f_equal.
  unfold be_val. cbn [fold_left]. lia.
Qed.

(** C10. The nonce and its integer are big-endian inverses of each other:
    the nonce of a [uint64] reads back as that integer, and the integer of
    an eight-byte nonce, the one its bytes denote with the most significant
    first, encodes back to that nonce. *)
Theorem nonce_uint64_inverse (i : N) (n : BlockNonce) :
  i < 2 ^ 64 -> List.length n = 8%nat ->
  (exists m, EncodeNonce i = Some m /\ List.length m = 8%nat /\ Uint64 m = Some i) /\
  (exists j, Uint64 n = Some j /\ j < 2 ^ 64 /\ EncodeNonce j = Some n) /\
  Uint64 n = Some (be_val n).
Proof.
  intros Hi Hn. split; [now apply Uint64_EncodeNonce|].
  split; [now apply EncodeNonce_Uint64|now apply Uint64_be_val].
Qed.

Lemma nonce_uint64_inverse_witness :
  (exists m, EncodeNonce 0x0102030405060708 = Some m /\ List.length m = 8%nat /\
             Uint64 m = Some 0x0102030405060708) /\
  (exists j, Uint64 [Byte.xde; Byte.xad; Byte.xbe; Byte.xef;
                     Byte.x00; Byte.x01; Byte.x02; Byte.xff] = Some j /\
             j < 2 ^ 64 /\
             EncodeNonce j = Some [Byte.xde; Byte.xad; Byte.xbe; Byte.xef;
                                   Byte.x00; Byte.x01; Byte.x02; Byte.xff]) /\
  Uint64 [Byte.xde; Byte.xad; Byte.xbe; Byte.xef;
          Byte.x00; Byte.x01; Byte.x02; Byte.xff] =
  Some (be_val [Byte.xde; Byte.xad; Byte.xbe; Byte.xef;
                Byte.x00; Byte.x01; Byte.x02; Byte.xff]).
Proof.
  apply (nonce_uint64_inverse 0x0102030405060708
           [Byte.xde; Byte.xad; Byte.xbe; Byte.xef;
            Byte.x00; Byte.x01; Byte.x02; Byte.xff]).
  - reflexivity.
  - reflexivity.
Defined.

End Nonce.

(** ** The canonical encoding: integers *)

Section Integers.
Import rlp.

Lemma be_val_acc (bs : bytes) (acc : N) :
  fold_left (fun a b => a * 256 + Byte.to_N b) bs acc =
  acc * 256 ^ N.of_nat (List.length bs) + be_val bs.
Proof.
  unfold be_val. revert acc. induction bs as [|b bs IH]; intros acc.
  - cbn. lia.
  - cbn [fold_left List.length]. rewrite IH, (IH (0 * 256 + Byte.to_N b)).
    rewrite Nat2N.inj_succ, N.pow_succ_r'. lia.
Qed.

Lemma be_val_cons (b : byte) (bs : bytes) :
  be_val (b :: bs) = Byte.to_N b * 256 ^ N.of_nat (List.length bs) + be_val bs.
Proof. unfold be_val at 1. cbn [fold_left]. now rewrite be_val_acc. Qed.

Lemma be_val_snoc (bs : bytes) (b : byte) :
  be_val (bs ++ [b]) = be_val bs * 256 + Byte.to_N b.
Proof. unfold be_val. now rewrite fold_left_app. Qed.

Lemma int_bytes_fuel_0 (fuel : nat) : int_bytes_fuel fuel 0 = [].
Proof. destruct fuel; reflexivity. Qed.

Lemma div256_lt_pow2 (i : N) (f : nat) :
  i < 2 ^ N.of_nat (S f) -> i / 256 < 2 ^ N.of_nat f.
Proof.
  intros H. rewrite Nat2N.inj_succ, N.pow_succ_r' in H.
  apply N.Div0.div_lt_upper_bound. lia.
Qed.

(** Any fuel that covers the bits of the integer gives the same bytes. *)
Lemma int_bytes_fuel_enough (f1 f2 : nat) (i : N) :
  i < 2 ^ N.of_nat f1 -> i < 2 ^ N.of_nat f2 ->
  int_bytes_fuel f1 i = int_bytes_fuel f2 i.
Proof.
  revert f2 i. induction f1 as [|f1 IH]; intros f2 i H1 H2.
  - cbn in H1. assert (i = 0) by lia. subst i. now rewrite !int_bytes_fuel_0.
  - destruct (N.eq_dec i 0) as [->|Hi]; [now rewrite !int_bytes_fuel_0|].
    destruct f2 as [|f2]; [cbn in H2; lia|].
    cbn [int_bytes_fuel]. destruct (N.eqb_spec i 0) as [|_]; [contradiction|].
    f_equal. apply IH; now apply div256_lt_pow2.
Qed.

Lemma size_fuel (i : N) : i < 2 ^ N.of_nat (N.to_nat (N.size i)).
Proof. rewrite N2Nat.id. apply N.size_gt. Qed.

Lemma int_bytes_step (i : N) :
  i <> 0 -> int_bytes i = int_bytes (i / 256) ++ [byte_of_N i].
Proof.
  intros Hi. unfold int_bytes.
  pose proof (size_fuel i) as Hf.
  destruct (N.to_nat (N.size i)) as [|f] eqn:E.
  - cbn in Hf. lia.
  - cbn [int_bytes_fuel]. destruct (N.eqb_spec i 0) as [|_]; [contradiction|].
    f_equal. apply int_bytes_fuel_enough; [now apply div256_lt_pow2|apply size_fuel].
Qed.

Lemma int_bytes_ind (P : N -> Prop) :
  P 0 -> (forall i, i <> 0 -> P (i / 256) -> P i) -> forall i, P i.
Proof.
  intros H0 Hs i. induction i as [i IH] using (well_founded_induction N.lt_wf_0).
  destruct (N.eq_dec i 0) as [->|Hi]; [exact H0|].
  apply Hs; [exact Hi|]. apply IH. apply N.div_lt; lia.
Qed.

(** The bytes of an integer denote it. *)
Lemma be_val_int_bytes (i : N) : be_val (int_bytes i) = i.
Proof.
  induction i as [|i Hi IH] using int_bytes_ind; [reflexivity|].
  rewrite int_bytes_step, be_val_snoc, IH, to_N_byte_of_N by assumption.
  pose proof (N.div_mod' i 256). lia.
Qed.

Lemma int_bytes_inj (i j : N) : int_bytes i = int_bytes j -> i = j.
Proof.
  intros E. rewrite <- (be_val_int_bytes i), <- (be_val_int_bytes j). now rewrite E.
Qed.

Lemma int_bytes_nil (i : N) : int_bytes i = [] -> i = 0.
Proof.
  intros E. rewrite <- (be_val_int_bytes i), E. reflexivity.
Qed.

(** The bytes of an integer have no leading zero byte. *)
Lemma int_bytes_no_leading_zero (i : N) : no_leading_zero (int_bytes i).
Proof.
  induction i as [|i Hi IH] using int_bytes_ind; [exact I|].
  rewrite int_bytes_step by assumption.
  destruct (int_bytes (i / 256)) as [|b l] eqn:E.
  - apply int_bytes_nil in E. cbn. intros Hz.
    apply (f_equal Byte.to_N) in Hz. rewrite to_N_byte_of_N in Hz.
    change (Byte.to_N Byte.x00) with 0 in Hz.
    pose proof (N.div_mod' i 256). lia.
  - exact IH.
Qed.

Lemma be_val_no_leading_zero (bs : bytes) :
  no_leading_zero bs -> bs <> [] -> be_val bs <> 0.
Proof.
  destruct bs as [|b bs]; [congruence|]. intros Hb _.
  cbn [no_leading_zero] in Hb. rewrite be_val_cons.
  assert (Byte.to_N b <> 0).
  { intros E. apply Hb. apply to_N_inj. exact E. }
  assert (0 < 256 ^ N.of_nat (List.length bs)) by (apply N.neq_0_lt_0, N.pow_nonzero; lia).
  nia.
Qed.

(** Bytes without a leading zero byte are the bytes of the integer they
    denote: the representation is the only one of its kind. *)
Lemma int_bytes_be_val (bs : bytes) : no_leading_zero bs -> int_bytes (be_val bs) = bs.
Proof.
  induction bs as [|b bs IH] using rev_ind; [reflexivity|].
  intros Hn.
  assert (Hbs : no_leading_zero bs) by (destruct bs; [exact I|exact Hn]).
  assert (Hv : be_val (bs ++ [b]) <> 0).
  { apply be_val_no_leading_zero; [assumption|]. now destruct bs. }
  rewrite int_bytes_step by assumption.
  rewrite be_val_snoc. pose proof (to_N_lt b).
  rewrite N.mul_comm, N.add_comm, div256 by assumption.
  rewrite IH by assumption. f_equal. f_equal.
  apply byte_of_N_eq. now apply mod256.
Qed.

Lemma strip_zeros_spec (bs : bytes) :
  be_val (strip_zeros bs) = be_val bs /\
  no_leading_zero (strip_zeros bs) /\
  (List.length (strip_zeros bs) <= List.length bs)%nat.
Proof.
  induction bs as [|b bs (IH1 & IH2 & IH3)]; [cbn; auto|].
  cbn [strip_zeros]. destruct (Byte.eqb b Byte.x00) eqn:E.
  - apply Byte.byte_dec_bl in E. subst b.
    rewrite be_val_cons. cbn [List.length]. change (Byte.to_N Byte.x00) with 0.
    split; [lia|]. split; [assumption|lia].
  - split; [reflexivity|]. split; [|lia].
    cbn. intros ->. discriminate E.
Qed.

(** No bytes that denote the integer are fewer than its bytes. *)
Lemma int_bytes_minimal (i : N) (bs : bytes) :
  be_val bs = i -> (List.length (int_bytes i) <= List.length bs)%nat.
Proof.
  intros <-. destruct (strip_zeros_spec bs) as (E & Hn & Hl).
  rewrite <- E, int_bytes_be_val; assumption.
Qed.

Lemma int_bytes_length (i : N) (k : nat) :
  i < 256 ^ N.of_nat k -> (List.length (int_bytes i) <= k)%nat.
Proof.
  revert k. induction i as [|i Hi IH] using int_bytes_ind; intros k Hk.
  - cbn. lia.
  - rewrite int_bytes_step, length_app by assumption. cbn [List.length].
    destruct k as [|k]; [cbn in Hk; lia|].
    assert (List.length (int_bytes (i / 256)) <= k)%nat; [|lia].
    apply IH. rewrite Nat2N.inj_succ, N.pow_succ_r' in Hk.
    apply N.Div0.div_lt_upper_bound. lia.
Qed.

Lemma int_bytes_nonzero (i : N) : i <> 0 -> int_bytes i <> [].
Proof. intros Hi E. apply Hi. now apply int_bytes_nil. Qed.

End Integers.

(** ** The canonical encoding: length prefixes *)

Section Prefixes.
Import rlp.

Lemma app_inj_length {A : Type} (a1 a2 b1 b2 : list A) :
  List.length a1 = List.length a2 -> a1 ++ b1 = a2 ++ b2 -> a1 = a2 /\ b1 = b2.
Proof.
  revert a2. induction a1 as [|x a1 IH]; intros [|y a2] Hl E;
    try discriminate Hl.
  - auto.
  - cbn in E. injection E as -> E. injection Hl as Hl.
    destruct (IH a2 Hl E) as [-> ->]. auto.
Qed.

Lemma int_bytes_length_64 (n : N) :
  n < 2 ^ 64 -> (List.length (int_bytes n) <= 8)%nat.
Proof. intros H. apply int_bytes_length. exact H. Qed.

(** The first byte of a prefix tells the two forms apart, and the size is
    read off the prefix. *)
Lemma puthead_app_inj (smalltag largetag n1 n2 : N) (r1 r2 : bytes) :
  smalltag + 55 = largetag -> largetag + 8 < 256 ->
  n1 < 2 ^ 64 -> n2 < 2 ^ 64 ->
  puthead smalltag largetag n1 ++ r1 = puthead smalltag largetag n2 ++ r2 ->
  n1 = n2 /\ r1 = r2.
Proof.
  intros Ht Hl H1 H2. unfold puthead.
  pose proof (int_bytes_length_64 n1 H1) as L1.
  pose proof (int_bytes_length_64 n2 H2) as L2.
  assert (P1 : n1 <> 0 -> (1 <= List.length (int_bytes n1))%nat).
  { intros Hn. apply int_bytes_nonzero in Hn. destruct (int_bytes n1); [congruence|cbn; lia]. }
  assert (P2 : n2 <> 0 -> (1 <= List.length (int_bytes n2))%nat).
  { intros Hn. apply int_bytes_nonzero in Hn. destruct (int_bytes n2); [congruence|cbn; lia]. }
  destruct (N.ltb_spec n1 56) as [S1|S1]; destruct (N.ltb_spec n2 56) as [S2|S2];
    cbn [List.app]; intros E; injection E as Hb Hr.
  - apply byte_of_N_small_inj in Hb; [|lia|lia]. split; [lia|assumption].
  - apply byte_of_N_small_inj in Hb; lia.
  - apply byte_of_N_small_inj in Hb; lia.
  - apply byte_of_N_small_inj in Hb; [|lia|lia].
    assert (Hlen : List.length (int_bytes n1) = List.length (int_bytes n2)) by lia.
    apply app_inj_length in Hr; [|exact Hlen].
    destruct Hr as [Hi Hr]. split; [now apply int_bytes_inj|assumption].
Qed.

Lemma puthead_first (smalltag largetag n : N) :
  smalltag + 55 = largetag -> largetag + 8 < 256 -> n < 2 ^ 64 ->
  exists b rest, puthead smalltag largetag n = b :: rest /\ smalltag <= Byte.to_N b.
Proof.
  intros Ht Hl Hn. unfold puthead.
  pose proof (int_bytes_length_64 n Hn) as L.
  destruct (N.ltb_spec n 56); eexists; eexists; (split; [reflexivity|]);
    rewrite to_N_byte_of_N, N.mod_small; lia.
Qed.

Lemma encode_string_low (s : bytes) : single_low s = true -> encode_string s = s.
Proof.
  destruct s as [|b [|c s]]; try discriminate. cbn. now intros ->.
Qed.

Lemma encode_string_head (s : bytes) :
  single_low s = false ->
  encode_string s = puthead 0x80 0xB7 (N.of_nat (List.length s)) ++ s.
Proof.
  destruct s as [|b [|c s]]; try reflexivity. cbn [single_low encode_string].
  now intros ->.
Qed.

Lemma encode_string_length (s : bytes) :
  (List.length s <= List.length (encode_string s))%nat.
Proof.
  destruct (single_low s) eqn:E.
  - rewrite encode_string_low by assumption. lia.
  - rewrite encode_string_head, length_app by assumption. lia.
Qed.

(** A string is read off the front of what follows it in one way only. *)
Lemma encode_string_app_inj (s1 s2 r1 r2 : bytes) :
  N.of_nat (List.length s1) < 2 ^ 64 -> N.of_nat (List.length s2) < 2 ^ 64 ->
  encode_string s1 ++ r1 = encode_string s2 ++ r2 ->
  s1 = s2 /\ r1 = r2.
Proof.
  intros H1 H2.
  destruct (single_low s1) eqn:E1; destruct (single_low s2) eqn:E2.
  - rewrite !encode_string_low by assumption.
    destruct s1 as [|b1 [|? ?]]; try discriminate E1.
    destruct s2 as [|b2 [|? ?]]; try discriminate E2.
    cbn. intros E. inversion E. auto.
  - rewrite (encode_string_low s1), (encode_string_head s2) by assumption.
    destruct s1 as [|b1 [|? ?]]; try discriminate E1.
    destruct (puthead_first 0x80 0xB7 (N.of_nat (List.length s2)))
      as (b & rest & -> & Hb); [reflexivity|reflexivity|assumption|].
    cbn. intros E. inversion E; subst b.
    cbn in E1. apply N.ltb_lt in E1. lia.
  - rewrite (encode_string_head s1), (encode_string_low s2) by assumption.
    destruct s2 as [|b2 [|? ?]]; try discriminate E2.
    destruct (puthead_first 0x80 0xB7 (N.of_nat (List.length s1)))
      as (b & rest & -> & Hb); [reflexivity|reflexivity|assumption|].
    cbn. intros E. inversion E; subst b.
    cbn in E2. apply N.ltb_lt in E2. lia.
  - rewrite !encode_string_head by assumption. rewrite <- !app_assoc.
    intros E. apply puthead_app_inj in E;
      [|reflexivity|reflexivity|assumption|assumption].
    destruct E as [Hl E]. apply Nat2N.inj in Hl.
    apply app_inj_length in E; assumption.
Qed.

Lemma encode_string_inj (s1 s2 : bytes) :
  N.of_nat (List.length s1) < 2 ^ 64 -> N.of_nat (List.length s2) < 2 ^ 64 ->
  encode_string s1 = encode_string s2 -> s1 = s2.
Proof.
  intros H1 H2 E.
  apply (encode_string_app_inj s1 s2 [] []); [assumption|assumption|].
  now rewrite !app_nil_r.
Qed.

Lemma encode_list_length (p : bytes) :
  (List.length p <= List.length (encode_list p))%nat.
Proof. unfold encode_list. rewrite length_app. lia. Qed.

Lemma encode_list_inj (p1 p2 : bytes) :
  N.of_nat (List.length p1) < 2 ^ 64 -> N.of_nat (List.length p2) < 2 ^ 64 ->
  encode_list p1 = encode_list p2 -> p1 = p2.
Proof.
  intros H1 H2 E. unfold encode_list in E.
  apply puthead_app_inj in E; [|reflexivity|reflexivity|assumption|assumption].
  apply E.
Qed.

Lemma EncodeToBytes_Int (i : Z) :
  (0 <= i)%Z -> EncodeToBytes (Int i) = Ok (encode_string (int_bytes (Z.to_N i))).
Proof.
  intros H. cbn. destruct (Z.ltb_spec i 0); [lia|reflexivity].
Qed.

(** C3. A non-negative integer field is encoded as the byte string of its
    minimal big-endian representation: the bytes denote the integer, none
    leads with a zero byte, no bytes that denote it are fewer and no others
    are free of a leading zero; the integer zero is the empty byte string,
    not a single zero byte. The five integer fields of a header are such
    fields. *)
Theorem integer_minimal_big_endian (i : Z) :
  (0 <= i)%Z ->
  EncodeToBytes (Int i) = Ok (encode_string (int_bytes (Z.to_N i))) /\
  be_val (int_bytes (Z.to_N i)) = Z.to_N i /\
  no_leading_zero (int_bytes (Z.to_N i)) /\
  (forall bs, be_val bs = Z.to_N i ->
              (List.length (int_bytes (Z.to_N i)) <= List.length bs)%nat) /\
  (forall bs, be_val bs = Z.to_N i -> no_leading_zero bs ->
              bs = int_bytes (Z.to_N i)) /\
  int_bytes 0 = [] /\
  EncodeToBytes (Int 0) = EncodeToBytes (Str []) /\
  EncodeToBytes (Int 0) = Ok [Byte.x80] /\
  EncodeToBytes (Str [Byte.x00]) = Ok [Byte.x00] /\
  EncodeToBytes (Int 0) <> EncodeToBytes (Str [Byte.x00]) /\
  (forall h : types.Header,
      firstn 5 (skipn 7 (types.header_fields h)) =
      [Int (types.Difficulty h); Int (types.Number h);
       Int (Z.of_N (types.GasLimit h)); Int (Z.of_N (types.GasUsed h));
       Int (Z.of_N (types.Time h))]).
Proof.
  intros Hi.
  split; [now apply EncodeToBytes_Int|].
  split; [apply be_val_int_bytes|].
  split; [apply int_bytes_no_leading_zero|].
  split; [intros bs; apply int_bytes_minimal|].
  split; [intros bs <- Hn; symmetry; now apply int_bytes_be_val|].
  repeat split; discriminate.
Qed.

Lemma integer_minimal_big_endian_witness :
  EncodeToBytes (Int 1024) = Ok (encode_string (int_bytes (Z.to_N 1024))) /\
  be_val (int_bytes (Z.to_N 1024)) = Z.to_N 1024 /\
  no_leading_zero (int_bytes (Z.to_N 1024)) /\
  (forall bs, be_val bs = Z.to_N 1024 ->
              (List.length (int_bytes (Z.to_N 1024)) <= List.length bs)%nat) /\
  (forall bs, be_val bs = Z.to_N 1024 -> no_leading_zero bs ->
              bs = int_bytes (Z.to_N 1024)) /\
  int_bytes 0 = [] /\
  EncodeToBytes (Int 0) = EncodeToBytes (Str []) /\
  EncodeToBytes (Int 0) = Ok [Byte.x80] /\
  EncodeToBytes (Str [Byte.x00]) = Ok [Byte.x00] /\
  EncodeToBytes (Int 0) <> EncodeToBytes (Str [Byte.x00]) /\
  (forall h : types.Header,
      firstn 5 (skipn 7 (types.header_fields h)) =
      [Int (types.Difficulty h); Int (types.Number h);
       Int (Z.of_N (types.GasLimit h)); Int (Z.of_N (types.GasUsed h));
       Int (Z.of_N (types.Time h))]).
Proof.
  apply (integer_minimal_big_endian 1024). lia.
Defined.

End Prefixes.

(** ** The canonical encoding of a header *)

Section HeaderEncoding.
Import rlp types.

Lemma of_N_ltb_0 (n : N) : (Z.of_N n <? 0)%Z = false.
Proof. apply Z.ltb_ge. lia. Qed.

(** The encoding of a header: rejected when [Difficulty] or [Number] is
    negative, and else the list of its fields in the order of their
    declaration. *)
Lemma EncodeToBytes_header (h : Header) :
  EncodeToBytes (to_value h) =
  if (Difficulty h <? 0)%Z then Err ErrNegativeBigInt
  else if (Number h <? 0)%Z then Err ErrNegativeBigInt
  else Ok (encode_list (header_payload h)).
Proof.
  unfold header_payload. destruct h. cbn -[encode_string encode_list int_bytes Z.ltb].
  rewrite !of_N_ltb_0, !N2Z.id.
  destruct (Difficulty0 <? 0)%Z; [reflexivity|].
  destruct (Number0 <? 0)%Z; cbn [bind]; [reflexivity|].
  now rewrite app_nil_r.
Qed.

Lemma EncodeToBytes_header_Ok (h : Header) (b : bytes) :
  EncodeToBytes (to_value h) = Ok b ->
  (0 <= Difficulty h)%Z /\ (0 <= Number h)%Z /\ b = encode_list (header_payload h).
Proof.
  rewrite EncodeToBytes_header.
  destruct (Z.ltb_spec (Difficulty h) 0); [discriminate|].
  destruct (Z.ltb_spec (Number h) 0); [discriminate|].
  intros E. inversion E. auto.
Qed.

Lemma EncodeToBytes_header_legal (h : Header) :
  (0 <= Difficulty h)%Z -> (0 <= Number h)%Z ->
  EncodeToBytes (to_value h) = Ok (encode_list (header_payload h)).
Proof.
  intros Hd Hn. rewrite EncodeToBytes_header.
  destruct (Z.ltb_spec (Difficulty h) 0); [lia|].
  destruct (Z.ltb_spec (Number h) 0); [lia|reflexivity].
Qed.

(** One field less to tell apart: the first string of a payload is read
    off it in one way. *)
Lemma payload_step (s1 s2 r1 r2 : bytes) (k : N) :
  N.of_nat (List.length (encode_string s1 ++ r1)) < k ->
  N.of_nat (List.length (encode_string s2 ++ r2)) < k ->
  k <= 2 ^ 64 ->
  encode_string s1 ++ r1 = encode_string s2 ++ r2 ->
  s1 = s2 /\ r1 = r2 /\
  N.of_nat (List.length r1) < k /\ N.of_nat (List.length r2) < k.
Proof.
  intros H1 H2 Hk E. rewrite length_app in H1, H2.
  pose proof (encode_string_length s1). pose proof (encode_string_length s2).
  apply encode_string_app_inj in E; [|lia|lia].
  destruct E as [-> ->]. repeat split; lia.
Qed.

(** The payload of a header tells all its fields. *)
Lemma header_payload_inj (h1 h2 : Header) :
  (0 <= Difficulty h1)%Z -> (0 <= Number h1)%Z ->
  (0 <= Difficulty h2)%Z -> (0 <= Number h2)%Z ->
  N.of_nat (List.length (header_payload h1)) < 2 ^ 64 ->
  N.of_nat (List.length (header_payload h2)) < 2 ^ 64 ->
  header_payload h1 = header_payload h2 -> h1 = h2.
Proof.
  destruct h1, h2. unfold header_payload. cbn [ParentHash UncleHash Coinbase Root
    TxHash ReceiptHash Bloom Difficulty Number GasLimit GasUsed Time Extra
    MixDigest RandomId].
  intros D1 N1 D2 N2 L1 L2 E.
  repeat match type of E with
         | encode_string _ ++ _ = encode_string _ ++ _ =>
             apply (payload_step _ _ _ _ (2 ^ 64)) in E;
             [destruct E as (? & E & L1' & L2'); clear L1 L2;
              rename L1' into L1; rename L2' into L2
             |assumption|assumption|reflexivity]
         end.
  pose proof (encode_string_length RandomId0).
  pose proof (encode_string_length RandomId1).
  apply encode_string_inj in E; [|lia|lia].
  repeat match goal with
         | H : int_bytes _ = int_bytes _ |- _ => apply int_bytes_inj in H
         end.
  assert (Difficulty0 = Difficulty1) by lia.
  assert (Number0 = Number1) by lia.
  subst. reflexivity.
Qed.

(** The encoding of a header is injective on the headers it takes. *)
Lemma header_encoding_inj (h1 h2 : Header) (b : bytes) :
  EncodeToBytes (to_value h1) = Ok b -> EncodeToBytes (to_value h2) = Ok b ->
  fits_slice b -> h1 = h2.
Proof.
  intros E1 E2 Hb. unfold fits_slice in Hb.
  apply EncodeToBytes_header_Ok in E1. destruct E1 as (D1 & N1 & E1).
  apply EncodeToBytes_header_Ok in E2. destruct E2 as (D2 & N2 & E2).
  pose proof (encode_list_length (header_payload h1)) as P1.
  pose proof (encode_list_length (header_payload h2)) as P2.
  rewrite <- E1 in P1. rewrite <- E2 in P2.
  assert (2 ^ 63 < 2 ^ 64) by reflexivity.
  assert (Hp : header_payload h1 = header_payload h2).
  { apply encode_list_inj; [lia|lia|congruence]. }
  apply header_payload_inj; try assumption; lia.
Qed.

End HeaderEncoding.

(** ** The content hasher *)

Section Hasher.
Import sha3.

Lemma lanes_length (f : nat -> nat -> N) : List.length (lanes f) = 25%nat.
Proof. unfold lanes. now rewrite length_map, length_seq. Qed.

Lemma keccak_round_length (a : list N) (round : nat) :
  List.length (keccak_round a round) = 25%nat.
Proof.
  unfold keccak_round, iota.
  pose proof (lanes_length (fun x y =>
    N.lxor (lane (rho_pi (theta a)) x y)
      (N.land (N.lxor (lane (rho_pi (theta a)) (x + 1) y) mask64)
         (lane (rho_pi (theta a)) (x + 2) y)))) as H.
  fold (chi (rho_pi (theta a))) in H.
  destruct (chi (rho_pi (theta a))) as [|a0 rest]; [discriminate H|exact H].
Qed.

Lemma fold_rounds_length (rounds : list nat) (a : list N) :
  rounds <> [] -> List.length (fold_left keccak_round rounds a) = 25%nat.
Proof.
  destruct rounds as [|r rounds] using rev_ind; [congruence|].
  intros _. rewrite fold_left_app. cbn [fold_left]. apply keccak_round_length.
Qed.

Lemma keccakF1600_length (a : list N) : List.length (keccakF1600 a) = 25%nat.
Proof. unfold keccakF1600. apply fold_rounds_length. discriminate. Qed.

Lemma copyOut_length (a : list N) :
  List.length (copyOut a) = (8 * List.length a)%nat.
Proof.
  unfold copyOut. induction a as [|x a IH]; [reflexivity|].
  cbn [flat_map]. rewrite length_app, IH.
  unfold le_bytes8. rewrite length_map, length_seq. cbn [List.length]. lia.
Qed.

(** The digest has [outputLen] bytes, which the 200 bytes of the state
    cover. *)
Lemma Sum_length (d : state) :
  (outputLen d <= 200)%nat -> List.length (Sum d []) = outputLen d.
Proof.
  intros H. unfold Sum, padAndPermute. cbn [List.app].
  rewrite length_firstn, copyOut_length, keccakF1600_length. lia.
Qed.

Lemma write_byte_params (d : state) (b : byte) :
  rate (write_byte d b) = rate d /\ outputLen (write_byte d b) = outputLen d /\
  dsbyte (write_byte d b) = dsbyte d.
Proof.
  unfold write_byte. destruct (List.length (buf d ++ [b]) =? rate d)%nat; auto.
Qed.

(** Writing leaves the rate, the size of the digest and the domain
    separation byte as they are. *)
Lemma write_params (p : bytes) (d : state) :
  rate (write d p) = rate d /\ outputLen (write d p) = outputLen d /\
  dsbyte (write d p) = dsbyte d.
Proof.
  unfold write. revert d. induction p as [|b p IH]; intros d; [auto|].
  cbn [fold_left]. destruct (IH (write_byte d b)) as (-> & -> & ->).
  apply write_byte_params.
Qed.

(** What is buffered does not depend on the domain separation byte. *)
Lemma write_buf (p : bytes) (d1 d2 : state) :
  buf d1 = buf d2 -> rate d1 = rate d2 -> buf (write d1 p) = buf (write d2 p).
Proof.
  unfold write. revert d1 d2. induction p as [|b p IH]; intros d1 d2 Hb Hr;
    [exact Hb|].
  cbn [fold_left]. apply IH.
  - unfold write_byte. rewrite Hb, Hr.
    destruct (List.length (buf d2 ++ [b]) =? rate d2)%nat; reflexivity.
  - destruct (write_byte_params d1 b) as (-> & _).
    destruct (write_byte_params d2 b) as (-> & _). exact Hr.
Qed.

Lemma flip_top_involutive (b : byte) :
  byte_of_N (N.lxor (Byte.to_N (byte_of_N (N.lxor (Byte.to_N b) 0x80))) 0x80) = b.
Proof. destruct b; reflexivity. Qed.

Lemma xor_last_snoc (l : bytes) (b : byte) :
  xor_last (l ++ [b]) = l ++ [byte_of_N (N.lxor (Byte.to_N b) 0x80)].
Proof. unfold xor_last. rewrite rev_app_distr. cbn. now rewrite rev_involutive. Qed.

Lemma xor_last_involutive (l : bytes) : xor_last (xor_last l) = l.
Proof.
  destruct l as [|b l] using rev_ind; [reflexivity|].
  now rewrite !xor_last_snoc, flip_top_involutive.
Qed.

(** The padded block of two sponges that differ in the domain separation
    byte only is not the same block. *)
Lemma pad_differs (d1 d2 : state) :
  buf d1 = buf d2 -> rate d1 = rate d2 -> dsbyte d1 <> dsbyte d2 ->
  pad d1 <> pad d2.
Proof.
  intros Hb Hr Hd E. apply Hd. unfold pad in E.
  apply (f_equal xor_last) in E. rewrite !xor_last_involutive in E.
  rewrite Hb, Hr, <- !app_assoc in E.
  apply app_inv_head in E. cbn [List.app] in E. now injection E.
Qed.

End Hasher.

(** ** The identity of a header *)

Section Identity.
Import rlp types.

Lemma rlpHash_Ok {A : Type} `{Encodable A} (x : A) (b : bytes) :
  EncodeToBytes (to_value x) = Ok b ->
  rlpHash x = sha3.Sum (sha3.write sha3.NewLegacyKeccak256 b) [].
Proof. intros E. unfold rlpHash, Encode. now rewrite E. Qed.

(** When the encoder rejects the value, [rlpHash] drops the error and the
    digest is that of nothing written. *)
Lemma rlpHash_Err {A : Type} `{Encodable A} (x : A) (e : error) :
  EncodeToBytes (to_value x) = Err e ->
  rlpHash x = sha3.Sum sha3.NewLegacyKeccak256 [].
Proof. intros E. unfold rlpHash, Encode. now rewrite E. Qed.

Lemma rlpHash_length {A : Type} `{Encodable A} (x : A) :
  List.length (rlpHash x) = 32%nat.
Proof.
  destruct (EncodeToBytes (to_value x)) as [b|e] eqn:E.
  - rewrite (rlpHash_Ok x b E).
    rewrite Sum_length; destruct (write_params b sha3.NewLegacyKeccak256)
      as (_ & -> & _); cbn; lia.
  - rewrite (rlpHash_Err x e E). now rewrite Sum_length by (cbn; lia).
Qed.

End Identity.

(** ** The hasher and the sponge *)

Section Sponge.
Import sha3.

Lemma xor_last_app (l1 l2 : bytes) :
  l2 <> [] -> xor_last (l1 ++ l2) = l1 ++ xor_last l2.
Proof.
  destruct l2 as [|b l2] using rev_ind; [congruence|]. intros _.
  now rewrite app_assoc, !xor_last_snoc, app_assoc.
Qed.

(** Bytes that do not fill the buffer are only buffered. *)
Lemma write_short (l : bytes) (d : state) :
  (List.length (buf d ++ l) < rate d)%nat ->
  write d l = mkState (a d) (buf d ++ l) (rate d) (outputLen d) (dsbyte d).
Proof.
  unfold write. revert d. induction l as [|b l IH]; intros d H.
  - cbn. rewrite app_nil_r. now destruct d.
  - cbn [fold_left]. rewrite length_app in H. cbn [List.length] in H.
    assert (E : write_byte d b =
                mkState (a d) (buf d ++ [b]) (rate d) (outputLen d) (dsbyte d)).
    { unfold write_byte. rewrite length_app. cbn [List.length].
      destruct (Nat.eqb_spec (List.length (buf d) + 1) (rate d)); [lia|reflexivity]. }
    rewrite E, IH; cbn [a buf rate outputLen dsbyte].
    + now rewrite <- app_assoc.
    + rewrite !length_app. cbn [List.length]. lia.
Qed.

(** A full block written into an empty buffer is absorbed. *)
Lemma write_block (blk : bytes) (d : state) :
  buf d = [] -> List.length blk = rate d -> (0 < rate d)%nat ->
  write d blk =
  mkState (absorb_block (a d) blk) [] (rate d) (outputLen d) (dsbyte d).
Proof.
  intros Hb Hl Hr.
  destruct blk as [|x blk] using rev_ind; [cbn in Hl; lia|]. clear IHblk.
  rewrite length_app in Hl. cbn [List.length] in Hl.
  unfold write. rewrite fold_left_app. fold (write d blk).
  rewrite write_short by (rewrite Hb; cbn; lia).
  cbn [fold_left]. unfold write_byte. cbn [a buf rate outputLen dsbyte].
  rewrite Hb. cbn [List.app]. rewrite length_app. cbn [List.length].
  destruct (Nat.eqb_spec (List.length blk + 1) (rate d)); [reflexivity|lia].
Qed.

(** The hasher, written to byte after byte, absorbs what the sponge absorbs
    over the whole message. *)
Lemma padAndPermute_write (fuel : nat) (m : bytes) (d : state) :
  buf d = [] -> (0 < rate d)%nat -> (List.length m < fuel)%nat ->
  padAndPermute (write d m) = sponge_absorb fuel (rate d) (dsbyte d) (a d) m.
Proof.
  revert m d. induction fuel as [|f IH]; intros m d Hb Hr Hf; [lia|].
  cbn [sponge_absorb]. destruct (Nat.ltb_spec (List.length m) (rate d)) as [Hs|Hs].
  - rewrite write_short by (rewrite Hb; exact Hs).
    unfold padAndPermute, pad, absorb_block, keccak_pad.
    cbn [a buf rate outputLen dsbyte]. rewrite Hb. cbn [List.app].
    rewrite <- app_assoc. cbn [List.app].
    rewrite xor_last_app by discriminate.
    rewrite length_app. cbn [List.length].
    replace (rate d - (List.length m + 1))%nat with (rate d - List.length m - 1)%nat by lia.
    reflexivity.
  - rewrite <- (firstn_skipn (rate d) m) at 1.
    unfold write. rewrite fold_left_app.
    fold (write d (firstn (rate d) m)).
    fold (write (write d (firstn (rate d) m)) (skipn (rate d) m)).
    rewrite (write_block (firstn (rate d) m) d);
      [|assumption|rewrite length_firstn; lia|assumption].
    rewrite IH; cbn [a buf rate outputLen dsbyte]; try reflexivity; try assumption.
    rewrite length_skipn. lia.
Qed.

(** The digest of the hasher of [rlpHash] is Keccak-256 of what was
    written. *)
Lemma Sum_Keccak256 (m : bytes) : Sum (write NewLegacyKeccak256 m) [] = Keccak256 m.
Proof.
  unfold Sum, Keccak256. destruct (write_params m NewLegacyKeccak256) as (_ & -> & _).
  cbn [outputLen NewLegacyKeccak256 List.app].
  rewrite (padAndPermute_write (S (List.length m))); [reflexivity|reflexivity|cbn; lia|lia].
Qed.

Lemma Sum_SHA3_256 (m : bytes) : Sum (write New256 m) [] = SHA3_256 m.
Proof.
  unfold Sum, SHA3_256. destruct (write_params m New256) as (_ & -> & _).
  cbn [outputLen New256 List.app].
  rewrite (padAndPermute_write (S (List.length m))); [reflexivity|reflexivity|cbn; lia|lia].
Qed.

Lemma keccak_pad_differs (rate len : nat) :
  keccak_pad Byte.x01 rate len <> keccak_pad Byte.x06 rate len.
Proof.
  unfold keccak_pad. intros E. apply (f_equal xor_last) in E.
  rewrite !xor_last_involutive in E. discriminate E.
Qed.

Lemma Keccak256_length (m : bytes) : List.length (Keccak256 m) = 32%nat.
Proof.
  rewrite <- Sum_Keccak256, Sum_length;
    destruct (write_params m NewLegacyKeccak256) as (_ & -> & _); cbn; lia.
Qed.

End Sponge.

(** ** The identity of a header and the injective encoding *)

Section HeaderIdentity.
Import rlp types.

Lemma fieldwise_equal_eq (h1 h2 : Header) : fieldwise_equal h1 h2 -> h1 = h2.
Proof.
  destruct h1, h2. unfold fieldwise_equal. cbn.
  intros (-> & -> & -> & -> & -> & -> & -> & -> & -> & -> & -> & -> & -> & -> & ->).
  reflexivity.
Qed.

Lemma Hash_legal (h : Header) :
  (0 <= Difficulty h)%Z -> (0 <= Number h)%Z ->
  Hash h =
  sha3.Sum (sha3.write sha3.NewLegacyKeccak256 (encode_list (header_payload h))) [].
Proof.
  intros Hd Hn. unfold Hash. apply rlpHash_Ok. now apply EncodeToBytes_header_legal.
Qed.

Lemma Hash_Keccak256 (h : Header) (enc : bytes) :
  EncodeToBytes (to_value h) = Ok enc -> Hash h = Keccak256 enc.
Proof.
  intros E. unfold Hash. rewrite (rlpHash_Ok h enc E). apply Sum_Keccak256.
Qed.

(** C1. The identity of a header is fixed by its fields: headers whose
    fifteen fields are pairwise equal have the same [Hash], of 32 bytes;
    and for a header of the data model ([Difficulty] and [Number] not
    negative) it is the digest, by the content hasher, of the list of the
    fields encoded in the order of their declaration. *)
Theorem Header_Hash_deterministic (h1 h2 : Header) :
  fieldwise_equal h1 h2 ->
  Hash h1 = Hash h2 /\
  List.length (Hash h1) = 32%nat /\
  List.length (header_fields h1) = 15%nat /\
  ((0 <= Difficulty h1)%Z -> (0 <= Number h1)%Z ->
   EncodeToBytes (to_value h1) = Ok (encode_list (header_payload h1)) /\
   Hash h1 =
   sha3.Sum (sha3.write sha3.NewLegacyKeccak256 (encode_list (header_payload h1))) [] /\
   Hash h1 = Keccak256 (encode_list (header_payload h1))).
Proof.
  intros Hf. apply fieldwise_equal_eq in Hf. subst h2.
  split; [reflexivity|]. split; [apply rlpHash_length|].
  split; [reflexivity|].
  intros Hd Hn. split; [now apply EncodeToBytes_header_legal|].
  split; [now apply Hash_legal|].
  apply Hash_Keccak256. now apply EncodeToBytes_header_legal.
Qed.

Lemma Header_Hash_deterministic_witness :
  Hash zero_header = Hash zero_header /\
  List.length (Hash zero_header) = 32%nat /\
  List.length (header_fields zero_header) = 15%nat /\
  EncodeToBytes (to_value zero_header) = Ok (encode_list (header_payload zero_header)) /\
  Hash zero_header =
    sha3.Sum (sha3.write sha3.NewLegacyKeccak256
                (encode_list (header_payload zero_header))) [] /\
  Hash zero_header = Keccak256 (encode_list (header_payload zero_header)).
Proof.
  assert (Hf : fieldwise_equal zero_header zero_header)
    by (unfold fieldwise_equal; repeat split).
  destruct (Header_Hash_deterministic zero_header zero_header Hf)
    as (Hsame & Hlen & Hfields & Hdigest).
  split; [exact Hsame|]. split; [exact Hlen|]. split; [exact Hfields|].
  apply Hdigest; simpl; lia.
Defined.

(** A header whose [Difficulty] is negative is rejected by the encoder;
    [rlpHash] drops the error, and the digest is that of the empty input. *)
Lemma Hash_rejected (h : Header) :
  (Difficulty h < 0)%Z \/ (Number h < 0)%Z ->
  Hash h = sha3.Sum sha3.NewLegacyKeccak256 [].
Proof.
  intros Hneg. unfold Hash. apply (rlpHash_Err h ErrNegativeBigInt).
  rewrite EncodeToBytes_header.
  destruct (Z.ltb_spec (Difficulty h) 0); [reflexivity|].
  destruct (Z.ltb_spec (Number h) 0); [reflexivity|lia].
Qed.

Lemma get_set_bytes (f : bytes_field) (v : bytes) (h : Header) :
  get_bytes f (set_bytes f v h) = v.
Proof. destruct h, f; reflexivity. Qed.

Lemma get_set_int (f : int_field) (v : Z) (h : Header) :
  (0 <= v)%Z -> get_int f (set_int f v h) = v.
Proof. intros Hv. destruct h, f; cbn; try reflexivity; lia. Qed.

Lemma swap_bytes_neq (f g : bytes_field) (h : Header) :
  get_bytes f h <> get_bytes g h -> swap_bytes f g h <> h.
Proof.
  intros Hne E. apply Hne. rewrite <- E at 1. unfold swap_bytes.
  apply get_set_bytes.
Qed.

Lemma get_int_nonneg (g : int_field) (h : Header) :
  (0 <= Difficulty h)%Z -> (0 <= Number h)%Z -> (0 <= get_int g h)%Z.
Proof. intros Hd Hn. destruct g; cbn; lia. Qed.

Lemma swap_int_neq (f g : int_field) (h : Header) :
  (0 <= Difficulty h)%Z -> (0 <= Number h)%Z ->
  get_int f h <> get_int g h -> swap_int f g h <> h.
Proof.
  intros Hd Hn Hne E. apply Hne. rewrite <- E at 1. unfold swap_int.
  apply get_set_int. now apply get_int_nonneg.
Qed.

(** C4. The encoding is injective on the shape of a header: two headers
    that differ in a field have different encodings, and so has a header
    and the header with the distinct values of two of its fields changed
    over; the identities are the digests of these different encodings. *)
Theorem header_encoding_injective (h1 h2 : Header) (b1 b2 : bytes) :
  EncodeToBytes (to_value h1) = Ok b1 ->
  EncodeToBytes (to_value h2) = Ok b2 ->
  fits_slice b1 -> fits_slice b2 ->
  (b1 = b2 -> h1 = h2) /\
  (h1 <> h2 -> b1 <> b2) /\
  (forall f g : bytes_field,
      h2 = swap_bytes f g h1 -> get_bytes f h1 <> get_bytes g h1 -> b1 <> b2) /\
  (forall f g : int_field,
      h2 = swap_int f g h1 -> get_int f h1 <> get_int g h1 -> b1 <> b2) /\
  Hash h1 = Keccak256 b1 /\
  Hash h2 = Keccak256 b2.
Proof.
  intros E1 E2 F1 F2.
  assert (Hinj : b1 = b2 -> h1 = h2).
  { intros <-. exact (header_encoding_inj h1 h2 b1 E1 E2 F1). }
  split; [exact Hinj|].
  split; [intros Hne Hb; apply Hne, Hinj, Hb|].
  destruct (EncodeToBytes_header_Ok h1 b1 E1) as (Hd & Hn & _).
  split; [|split; [|split]].
  - intros f g -> Hne Hb. apply (swap_bytes_neq f g h1 Hne). symmetry. now apply Hinj.
  - intros f g -> Hne Hb. apply (swap_int_neq f g h1 Hd Hn Hne). symmetry. now apply Hinj.
  - now apply Hash_Keccak256.
  - now apply Hash_Keccak256.
Qed.

Lemma header_encoding_injective_witness :
  (encode_list (header_payload sample_header) =
   encode_list (header_payload (swap_bytes FParentHash FUncleHash sample_header)) ->
   sample_header = swap_bytes FParentHash FUncleHash sample_header) /\
  (sample_header <> swap_bytes FParentHash FUncleHash sample_header ->
   encode_list (header_payload sample_header) <>
   encode_list (header_payload (swap_bytes FParentHash FUncleHash sample_header))) /\
  (forall f g : bytes_field,
      swap_bytes FParentHash FUncleHash sample_header = swap_bytes f g sample_header ->
      get_bytes f sample_header <> get_bytes g sample_header ->
      encode_list (header_payload sample_header) <>
      encode_list (header_payload (swap_bytes FParentHash FUncleHash sample_header))) /\
  (forall f g : int_field,
      swap_bytes FParentHash FUncleHash sample_header = swap_int f g sample_header ->
      get_int f sample_header <> get_int g sample_header ->
      encode_list (header_payload sample_header) <>
      encode_list (header_payload (swap_bytes FParentHash FUncleHash sample_header))) /\
  Hash sample_header = Keccak256 (encode_list (header_payload sample_header)) /\
  Hash (swap_bytes FParentHash FUncleHash sample_header) =
    Keccak256 (encode_list
      (header_payload (swap_bytes FParentHash FUncleHash sample_header))).
Proof.
  apply (header_encoding_injective sample_header
           (swap_bytes FParentHash FUncleHash sample_header)
           (encode_list (header_payload sample_header))
           (encode_list
              (header_payload (swap_bytes FParentHash FUncleHash sample_header)))).
  - vm_compute. reflexivity.
  - vm_compute. reflexivity.
  - vm_compute. reflexivity.
  - vm_compute. reflexivity.
Defined.

(** C2. For every input the content hasher of [rlpHash] gives Keccak-256
    of the input: a digest of 32 bytes from the sponge of rate 136 whose
    last block is closed by the original padding, the byte 0x01, zeros and
    the top bit of the last byte. It is not NIST's SHA3-256, whose padding
    starts with 0x06: for no length of the last block are the two paddings
    the same, on no input do the two hashers absorb the same padded block,
    and on the empty input they give the two known digests. *)
Theorem content_hasher_legacy_keccak256 (msg : bytes) :
  sha3.Sum (sha3.write sha3.NewLegacyKeccak256 msg) [] = Keccak256 msg /\
  List.length (Keccak256 msg) = 32%nat /\
  sha3.Sum (sha3.write sha3.New256 msg) [] = SHA3_256 msg /\
  (forall len : nat, keccak_pad Byte.x01 136 len <> keccak_pad Byte.x06 136 len) /\
  sha3.pad (sha3.write sha3.NewLegacyKeccak256 msg) <>
    sha3.pad (sha3.write sha3.New256 msg) /\
  Keccak256 [] =
    hexs "c5d2460186f7233c927e7db2dcc703c0e500b653ca82273b7bfad8045d85a470" /\
  SHA3_256 [] =
    hexs "a7ffc6f8bf1ed76651c14756a061d662f580ff4de43b49fa82d80a4b80f8434a" /\
  (forall (h : Header) (enc : bytes),
      EncodeToBytes (to_value h) = Ok enc -> Hash h = Keccak256 enc).
Proof.
  destruct (write_params msg sha3.NewLegacyKeccak256) as (Hr & Ho & Hd).
  destruct (write_params msg sha3.New256) as (Hr' & Ho' & Hd').
  cbn in Hr, Ho, Hd, Hr', Ho', Hd'.
  split; [apply Sum_Keccak256|].
  split; [apply Keccak256_length|].
  split; [apply Sum_SHA3_256|].
  split; [intros len; apply keccak_pad_differs|].
  split.
  { apply pad_differs.
    - now apply write_buf.
    - now rewrite Hr, Hr'.
    - rewrite Hd, Hd'. discriminate. }
  split; [vm_compute; reflexivity|].
  split; [vm_compute; reflexivity|].
  exact Hash_Keccak256.
Qed.

End HeaderIdentity.

(** ** Runs of the model *)

Example GenZeroSeq_run : rpc.GenZeroSeq = Ok (repeat Byte.x00 16).
Proof. vm_compute. reflexivity. Qed.

Example GenMsgSeq_run :
  rpc.GenMsgSeq "123e4567-e89b-42d3-a456-4266141740ff" =
  Ok (hexs "123e4567e89b42d3a4564266141740ff").
Proof. vm_compute. reflexivity. Qed.

Example uuid_New_run :
  uuid.New (repeat Byte.xff 16) = "ffffffff-ffff-4fff-bfff-ffffffffffff"%string.
Proof. vm_compute. reflexivity. Qed.

Example Split_run :
  strings.Split "a-b--c-" "-" = ["a"; "b"; ""; "c"; ""]%string /\
  strings.Split "" "-" = [""%string] /\
  strings.Split "a--b-c" "--" = ["a"; "b-c"]%string.
Proof. repeat split. Qed.

Example EncodeNonce_run :
  types.EncodeNonce 0x0102030405060708 = Some (hexs "0102030405060708") /\
  types.Uint64 (hexs "0102030405060708") = Some 0x0102030405060708.
Proof. vm_compute. split; reflexivity. Qed.

(** The examples of the RLP definition. *)
Example rlp_run :
  rlp.EncodeToBytes (rlp.Str (hexs "646f67")) = Ok (hexs "83646f67") /\
  rlp.EncodeToBytes (rlp.List [rlp.Str (hexs "636174"); rlp.Str (hexs "646f67")]) =
    Ok (hexs "c88363617483646f67") /\
  rlp.EncodeToBytes (rlp.Int 0) = Ok (hexs "80") /\
  rlp.EncodeToBytes (rlp.Int 15) = Ok (hexs "0f") /\
  rlp.EncodeToBytes (rlp.Int 1024) = Ok (hexs "820400") /\
  rlp.EncodeToBytes (rlp.List []) = Ok (hexs "c0") /\
  rlp.EncodeToBytes (rlp.Int (-1)) = Err ErrNegativeBigInt.
Proof. vm_compute. repeat split. Qed.

(** Known digests: Keccak-256 of "abc", and NIST's SHA3-256 of 200 bytes
    0xa3. *)
Example Keccak256_abc :
  Keccak256 (hexs "616263") =
  hexs "4e03657aea45a94fc7d47ba826c8d667c0d1e6e33a64a036ec44f58fa12d6c45".
Proof. vm_compute. reflexivity. Qed.

Example SHA3_256_a3 :
  sha3.Sum (sha3.write sha3.New256 (repeat Byte.xa3 200)) [] =
  hexs "79f38adec5c20307a98ef76e8324afbfd46cfd81b22e3973c65fa1bd9de31787".
Proof. vm_compute. reflexivity. Qed.

(** [EmptyUncleHash], the identity of the empty list of headers. *)
Example EmptyUncleHash_run :
  types.EmptyUncleHash =
  hexs "1dcc4de8dec75d7aab85b567b6ccd41ad312451b948a7413f0a142fd40d49347".
Proof. vm_compute. reflexivity. Qed.

(** The header of the regression scenario encodes to 496 bytes, three of
    prefix and 493 of payload. *)
Example zero_header_encoding :
  firstn 4 (rlp.encode_list (header_payload zero_header)) = hexs "f901eda0" /\
  List.length (rlp.encode_list (header_payload zero_header)) = 496%nat.
Proof. vm_compute. split; reflexivity. Qed.

